(** * Primpoly: primitive polynomials of degree n modulo p

    A shallow embedding of parts of the Primpoly sources
    (ppFactor.hpp, Primpoly.hpp, Primpoly.cpp and the header Primpoly.h
    of the C version) together with the properties that the program
    description states about them and further properties of the code. *)

From Stdlib Require Import ZArith List Lia Bool Arith Sorted.
Import ListNotations.

Local Open Scope Z_scope.

(** ** Machine integers

    [ppuint32] is a 32-bit unsigned type and [ppuint] a 64-bit unsigned
    type (Primpoly.hpp); both are embedded as [Z] with the wrap-around of
    unsigned arithmetic written out. *)

Definition wrap32 (v : Z) : Z := v mod 2 ^ 32.
Definition wrap64 (v : Z) : Z := v mod 2 ^ 64.

Definition is_u32 (v : Z) : Prop := 0 <= v < 2 ^ 32.

Lemma wrap32_range v : is_u32 (wrap32 v).
Proof. unfold is_u32, wrap32. apply Z.mod_pos_bound. lia. Qed.

Lemma wrap32_small v : is_u32 v -> wrap32 v = v.
Proof. unfold is_u32, wrap32. intros H. apply Z.mod_small. exact H. Qed.

Lemma lxor_u32 a b : is_u32 a -> is_u32 b -> is_u32 (Z.lxor a b).
Proof.
  unfold is_u32. intros [Ha0 Ha] [Hb0 Hb]. split.
  - apply Z.lxor_nonneg. tauto.
  - destruct (Z.eq_dec (Z.lxor a b) 0) as [E | E]; [rewrite E; lia |].
    apply Z.log2_lt_pow2; [pose proof (proj2 (Z.lxor_nonneg a b)); lia |].
    eapply Z.le_lt_trans; [apply Z.log2_lxor; assumption |].
    apply Z.max_lub_lt.
    + destruct (Z.eq_dec a 0) as [-> | A]; [simpl; lia |].
      apply Z.log2_lt_pow2; lia.
    + destruct (Z.eq_dec b 0) as [-> | B]; [simpl; lia |].
      apply Z.log2_lt_pow2; lia.
Qed.

Lemma shiftr_u32 a k : 0 <= k -> is_u32 a -> is_u32 (Z.shiftr a k).
Proof.
  unfold is_u32. intros Hk [H0 H]. rewrite Z.shiftr_div_pow2 by exact Hk.
  assert (0 < 2 ^ k) by (apply Z.pow_pos_nonneg; lia).
  split.
  - apply Z.div_pos; lia.
  - apply Z.le_lt_trans with a; [| exact H].
    apply Z.div_le_upper_bound; nia.
Qed.

(** ** The JKISS generator and the uniform integer source (ppFactor.hpp) *)

Module UniformRandomIntegers.

(** The four words of generator state, members [x], [y], [z], [c]. *)
Record state : Type := mkState { x : Z; y : Z; z : Z; c : Z }.

Definition state_ok (s : state) : Prop :=
  is_u32 (x s) /\ is_u32 (y s) /\ is_u32 (z s) /\ is_u32 (c s).

(** Default member initialisers. *)
Definition default_seeds : state :=
  mkState 123456789 987654321 43219876 6543217.

Definition how_often_to_reseed : Z := 10000.
Definition JKISS_MAGIC_NUM : Z := 698769068.

(** [numeric_limits<ppuint32>::max()] *)
Definition JKISSMAX : Z := 2 ^ 32 - 1.

(** [jKiss()]: returns the draw and the successor state. *)
Definition jKiss (s : state) : Z * state :=
  let x1 := wrap32 (314527869 * x s + 1234567) in
  let y1 := Z.lxor (y s) (wrap32 (Z.shiftl (y s) 5)) in
  let y2 := Z.lxor y1 (Z.shiftr y1 7) in
  let y3 := Z.lxor y2 (wrap32 (Z.shiftl y2 22)) in
  let t := wrap64 (4294584393 * z s + c s) in
  let c1 := wrap32 (Z.shiftr t 32) in
  let z1 := wrap32 t in
  (wrap32 (x1 + y3 + z1), mkState x1 y3 z1 c1).

(** The [n]-th draw after state [s] (draw 0 is the first one) and the
    state that is left after it. *)
Fixpoint draws (n : nat) (s : state) : Z * state :=
  match n with
  | O => jKiss s
  | S n' => draws n' (snd (jKiss s))
  end.

(** The loop [while (kiss > within_multiple_of_range) kiss = jKiss() ;].
    [fuel] bounds the number of iterations of the loop body. *)
Fixpoint redraw (fuel : nat) (within kiss : Z) (s : state)
  : option (Z * state) :=
  if kiss >? within then
    match fuel with
    | O => None
    | S fuel' => let (k, s') := jKiss s in redraw fuel' within k s'
    end
  else Some (kiss, s).

(** [rand()] for a generator whose member [range] holds [range]. *)
Definition rand (fuel : nat) (range : Z) (s : state) : option (Z * state) :=
  let (kiss, s1) := jKiss s in
  if range <? JKISSMAX then
    let range2 := wrap32 range in
    let within_multiple_of_range := JKISSMAX - JKISSMAX mod wrap32 range in
    match redraw fuel within_multiple_of_range kiss s1 with
    | None => None
    | Some (_, s2) => let (k, s3) := jKiss s2 in Some (wrap32 (k mod range2), s3)
    end
  else Some (kiss, s1).

(** *** The entropy device

    [trueRandomNumberFromDevice()] reads four bytes of /dev/urandom as one
    32-bit word.  The device is the list of the words it is going to
    deliver; a read from an empty device is the failed read that throws
    [FactorError]. *)
Definition device : Type := list Z.

Definition trueRandomNumberFromDevice (d : device) : option (Z * device) :=
  match d with
  | [] => None
  | w :: d' => Some (wrap32 w, d')
  end.

(** [while ( !(y = trueRandomNumberFromDevice()) ) ;] *)
Fixpoint read_nonzero (d : device) : option (Z * device) :=
  match d with
  | [] => None
  | w :: d' => if wrap32 w =? 0 then read_nonzero d' else Some (wrap32 w, d')
  end.

(** Outcome of a construction: the static counter, the seeds of the new
    object, what is left of the device, and whether the device was read. *)
Record constructed : Type := mkConstructed {
  num_of_initializations : Z;
  seeds : state;
  dev : device;
  reseeded : bool
}.

(** The constructor [UniformRandomIntegers( range )], run with the static
    counter at [count]; [None] is a thrown [FactorError]. *)
Definition construct (count : Z) (d : device) : option constructed :=
  let count1 := count + 1 in
  if Z.rem count1 how_often_to_reseed =? 0 then
    match trueRandomNumberFromDevice d with
    | None => None
    | Some (x0, d1) =>
      match read_nonzero d1 with
      | None => None
      | Some (y0, d2) =>
        match trueRandomNumberFromDevice d2 with
        | None => None
        | Some (z0, d3) =>
          match trueRandomNumberFromDevice d3 with
          | None => None
          | Some (r, d4) =>
            Some (mkConstructed count1
                    (mkState x0 y0 z0 (wrap32 (Z.rem r JKISS_MAGIC_NUM + 1)))
                    d4 true)
          end
        end
      end
    end
  else Some (mkConstructed count1 default_seeds d false).

(** What the description asks of [rand()]: the first draw, counted from
    the current state, that lies inside the largest multiple of [range]
    below 2^32, reduced modulo [range].  Stated from the description, for
    comparison with [rand]. *)
Fixpoint first_accepted (fuel : nat) (range : Z) (s : state)
  : option (Z * state) :=
  let (kiss, s1) := jKiss s in
  if kiss <? 2 ^ 32 - 2 ^ 32 mod range then Some (kiss mod range, s1)
  else match fuel with
       | O => None
       | S fuel' => first_accepted fuel' range s1
       end.

(** *** Elementary facts about the generator *)

Lemma jKiss_draw_range s : is_u32 (fst (jKiss s)).
Proof. unfold jKiss. cbn [fst]. apply wrap32_range. Qed.

Lemma jKiss_state_ok s : state_ok s -> state_ok (snd (jKiss s)).
Proof.
  intros (Hx & Hy & Hz & Hc). unfold jKiss, state_ok. cbn [snd x y z c].
  repeat split; try apply wrap32_range.
  - repeat first [ apply lxor_u32 | apply wrap32_range
                 | apply shiftr_u32; [lia |] | assumption ].
  - repeat first [ apply lxor_u32 | apply wrap32_range
                 | apply shiftr_u32; [lia |] | assumption ].
Qed.

Lemma draws_range n s : is_u32 (fst (draws n s)).
Proof.
  revert s. induction n as [| n IH]; intros s; cbn [draws].
  - apply jKiss_draw_range.
  - apply IH.
Qed.

Lemma draws_succ n s :
  draws (S n) s = jKiss (snd (draws n s)).
Proof.
  revert s. induction n as [| n IH]; intros s.
  - reflexivity.
  - change (draws (S (S n)) s) with (draws (S n) (snd (jKiss s))).
    rewrite IH. reflexivity.
Qed.

(** The rejection loop stops at the first draw that is not above the
    threshold, provided the fuel reaches that far. *)
Lemma redraw_stops (within : Z) :
  forall (j fuel : nat) (s : state),
    (j <= fuel)%nat ->
    (forall i, (i < j)%nat -> fst (draws i s) > within) ->
    fst (draws j s) <= within ->
    redraw fuel within (fst (jKiss s)) (snd (jKiss s)) = Some (draws j s).
Proof.
  induction j as [| j IH]; intros fuel s Hfuel Hrej Hacc.
  - cbn [draws] in *. destruct fuel; cbn [redraw];
      (destruct (Z.gtb_spec (fst (jKiss s)) within); [lia |]);
      destruct (jKiss s); reflexivity.
  - destruct fuel as [| fuel]; [lia |]. cbn [redraw].
    pose proof (Hrej 0%nat ltac:(lia)) as H0. cbn [draws] in H0.
    destruct (Z.gtb_spec (fst (jKiss s)) within); [| lia].
    destruct (jKiss (snd (jKiss s))) as [k s'] eqn:E.
    change k with (fst (k, s')). change s' with (snd (k, s')) at 2.
    rewrite <- E. cbn [draws]. apply IH.
    + lia.
    + intros i Hi. apply (Hrej (S i)). lia.
    + exact Hacc.
Qed.

(** When some draw is accepted within the fuel, [rand] returns, and what it
    returns is the residue of the draw that FOLLOWS the accepted one. *)
Lemma rand_returns (range : Z) (j fuel : nat) (s : state) :
  0 < range < JKISSMAX ->
  (j <= fuel)%nat ->
  (forall i, (i < j)%nat -> fst (draws i s) > JKISSMAX - JKISSMAX mod range) ->
  fst (draws j s) <= JKISSMAX - JKISSMAX mod range ->
  rand fuel range s
  = Some (fst (draws (S j) s) mod range, snd (draws (S j) s)).
Proof.
  intros Hr Hfuel Hrej Hacc. unfold rand.
  assert (Hw : wrap32 range = range)
    by (apply wrap32_small; unfold is_u32, JKISSMAX in *; lia).
  rewrite (surjective_pairing (jKiss s)).
  destruct (Z.ltb_spec range JKISSMAX); [| lia].
  rewrite Hw.
  rewrite (redraw_stops _ j fuel s Hfuel Hrej Hacc).
  rewrite draws_succ.
  destruct (draws j s) as [kj sj]. cbn [snd].
  destruct (jKiss sj) as [k s3] eqn:E3. cbn [fst snd].
  f_equal. f_equal. apply wrap32_small.
  pose proof (jKiss_draw_range sj) as Hk. rewrite E3 in Hk. cbn [fst] in Hk.
  unfold is_u32, JKISSMAX in *. pose proof (Z.mod_pos_bound k range). lia.
Qed.

(** Below [JKISSMAX] every returned value is a residue modulo [range]. *)
Lemma rand_below_range (fuel : nat) (range : Z) (s s' : state) (v : Z) :
  0 < range < JKISSMAX ->
  rand fuel range s = Some (v, s') ->
  0 <= v < range.
Proof.
  intros Hr. unfold rand.
  assert (Hw : wrap32 range = range)
    by (apply wrap32_small; unfold is_u32, JKISSMAX in *; lia).
  destruct (jKiss s) as [kiss s1].
  destruct (Z.ltb_spec range JKISSMAX); [| lia].
  rewrite Hw.
  destruct (redraw fuel _ kiss s1) as [[k2 s2] |]; [| discriminate].
  destruct (jKiss s2) as [k s3] eqn:E3. intros Hv. injection Hv as <- <-.
  pose proof (jKiss_draw_range s2) as Hk. rewrite E3 in Hk. cbn [fst] in Hk.
  rewrite wrap32_small.
  - apply Z.mod_pos_bound. lia.
  - unfold is_u32, JKISSMAX in *. pose proof (Z.mod_pos_bound k range). lia.
Qed.

(** From [JKISSMAX] on, the raw draw is handed through: it is returned for
    every fuel and lies below 2^32. *)
Lemma rand_passthrough (fuel : nat) (range : Z) (s : state) :
  JKISSMAX <= range ->
  rand fuel range s = Some (jKiss s) /\ 0 <= fst (jKiss s) < 2 ^ 32.
Proof.
  intros Hr. unfold rand. split.
  - destruct (jKiss s) as [kiss s1].
    destruct (Z.ltb_spec range JKISSMAX); [lia | reflexivity].
  - apply jKiss_draw_range.
Qed.

(** The device is read exactly when the incremented counter is a multiple
    of [how_often_to_reseed]. *)
Lemma construct_reseeded (count : Z) (d : device) (r : constructed) :
  0 <= count ->
  construct count d = Some r ->
  num_of_initializations r = count + 1 /\
  (reseeded r = true <-> (count + 1) mod how_often_to_reseed = 0) /\
  (reseeded r = false -> seeds r = default_seeds /\ dev r = d).
Proof.
  intros Hc. unfold construct.
  rewrite Z.rem_mod_nonneg by (unfold how_often_to_reseed; lia).
  destruct (Z.eqb_spec ((count + 1) mod how_often_to_reseed) 0) as [E | E].
  - destruct (trueRandomNumberFromDevice d) as [[x0 d1] |]; [| discriminate].
    destruct (read_nonzero d1) as [[y0 d2] |]; [| discriminate].
    destruct (trueRandomNumberFromDevice d2) as [[z0 d3] |]; [| discriminate].
    destruct (trueRandomNumberFromDevice d3) as [[r0 d4] |]; [| discriminate].
    intros H. injection H as <-. cbn.
    split; [reflexivity |]. split; [tauto | discriminate].
  - intros H. injection H as <-. cbn.
    split; [reflexivity |]. split; [| tauto].
    split; [discriminate | intros; contradiction].
Qed.

(** C10: [jKiss()] is a function of the four state words: it sets [x] to
    (314527869 x + 1234567) mod 2^32, runs [y] through the xor-shifts by 5
    (left), 7 (right) and 22 (left), forms t = 4294584393 z + c without
    overflow in 64 bits, sets [c] to floor(t / 2^32) and [z] to t mod 2^32,
    and returns (x + y + z) mod 2^32 of the new words; equal states give
    equal draws and equal successor states. *)
Theorem jKiss_update (s : state) (Hs : state_ok s) :
  let t := 4294584393 * z s + c s in
  let y1 := Z.lxor (y s) ((y s * 2 ^ 5) mod 2 ^ 32) in
  let y2 := Z.lxor y1 (y1 / 2 ^ 7) in
  let y3 := Z.lxor y2 ((y2 * 2 ^ 22) mod 2 ^ 32) in
  let s' := snd (jKiss s) in
  x s' = (314527869 * x s + 1234567) mod 2 ^ 32 /\
  y s' = y3 /\
  t < 2 ^ 64 /\
  c s' = t / 2 ^ 32 /\
  z s' = t mod 2 ^ 32 /\
  fst (jKiss s) = (x s' + y s' + z s') mod 2 ^ 32 /\
  state_ok s' /\
  (forall s2 : state, s2 = s -> jKiss s2 = jKiss s).
Proof.
  pose proof (jKiss_state_ok s Hs) as Hok.
  destruct Hs as (Hx & Hy & Hz & Hc). unfold is_u32 in *.
  assert (Ht : 0 <= 4294584393 * z s + c s < 2 ^ 64) by lia.
  cbv zeta.
  split; [reflexivity |].
  split.
  { unfold jKiss. cbn [snd y].
    rewrite !Z.shiftl_mul_pow2, !Z.shiftr_div_pow2 by lia. reflexivity. }
  split; [lia |].
  split.
  { unfold jKiss. cbn [snd c]. unfold wrap64.
    rewrite (Z.mod_small _ _ Ht), Z.shiftr_div_pow2 by lia.
    apply wrap32_small. unfold is_u32. split.
    - apply Z.div_pos; lia.
    - apply Z.div_lt_upper_bound; lia. }
  split.
  { unfold jKiss. cbn [snd z]. unfold wrap64.
    rewrite (Z.mod_small _ _ Ht). reflexivity. }
  split; [reflexivity |].
  split; [exact Hok |].
  intros s2 ->. reflexivity.
Qed.

Lemma jKiss_update_default_seeds :
  state_ok default_seeds /\
  x (snd (jKiss default_seeds))
  = (314527869 * x default_seeds + 1234567) mod 2 ^ 32.
Proof.
  assert (H : state_ok default_seeds)
    by (unfold state_ok, is_u32, default_seeds; cbn; lia).
  split; [exact H |].
  exact (proj1 (jKiss_update default_seeds H)).
Defined.

(** C4: with the default seeds and range 100 the first draw, 560241513,
    lies below the accepted bound, so the value asked for is its residue 13;
    [rand()] consumes that draw and returns the residue 93 of the draw
    after it, for every bound on the loop. *)
Theorem rand_returns_draw_after_accepted :
  fst (draws 0 default_seeds) = 560241513 /\
  560241513 <= JKISSMAX - JKISSMAX mod 100 /\
  first_accepted 0 100 default_seeds = Some (13, snd (draws 0 default_seeds)) /\
  fst (draws 1 default_seeds) = 2602615593 /\
  forall fuel : nat,
    rand fuel 100 default_seeds = Some (93, snd (draws 1 default_seeds)).
Proof.
  split; [reflexivity |].
  split; [vm_compute; discriminate |].
  split; [reflexivity |].
  split; [reflexivity |].
  intros fuel.
  rewrite (rand_returns 100 0 fuel default_seeds).
  - reflexivity.
  - unfold JKISSMAX. lia.
  - lia.
  - intros i Hi. lia.
  - vm_compute. discriminate.
Qed.

(** C5: the first construction of a process (static counter at 0) leaves
    the device untouched and keeps the default seeds, whatever the device
    holds; the first construction that reads the device is the 10000th. *)
Theorem first_construction_keeps_default_seeds (d : device) :
  construct 0 d = Some (mkConstructed 1 default_seeds d false) /\
  construct 9999 [11; 0; 22; 33; 44; 55]
  = Some (mkConstructed 10000 (mkState 11 22 33 45) [55] true).
Proof. split; reflexivity. Qed.

(** C9: a generator seeded from the device words 2762534371, 987654321,
    43219876, 6543216 at the 10000th construction and built for range
    4294967295 = 2^32 - 1 returns 4294967295 from its first [rand()],
    which is not below its range. *)
Theorem rand_range_JKISSMAX_returns_range :
  exists r : constructed,
    construct 9999 [2762534371; 987654321; 43219876; 6543216] = Some r /\
    reseeded r = true /\
    state_ok (seeds r) /\
    forall fuel : nat,
      option_map fst (rand fuel 4294967295 (seeds r)) = Some 4294967295.
Proof.
  eexists. split; [reflexivity |]. cbn [reseeded seeds].
  split; [reflexivity |].
  split; [unfold state_ok, is_u32; vm_compute; intuition discriminate |].
  intros fuel.
  destruct (rand_passthrough fuel 4294967295
              (mkState 2762534371 987654321 43219876 6543217)) as [H _].
  - unfold JKISSMAX. lia.
  - vm_compute (wrap32 _). rewrite H. reflexivity.
Qed.

(** *** Further facts about the uniform integer source *)

(** [within_multiple_of_range] of [rand()]. *)
Definition threshold (range : Z) : Z := JKISSMAX - JKISSMAX mod range.

(** What the rejection loop hands on: the first draw that is not above
    the bound, with all earlier draws above it. *)
Lemma redraw_inversion (within : Z) :
  forall (fuel : nat) (s : state) (k : Z) (s2 : state),
    redraw fuel within (fst (jKiss s)) (snd (jKiss s)) = Some (k, s2) ->
    exists j : nat,
      (j <= fuel)%nat /\
      (forall i, (i < j)%nat -> fst (draws i s) > within) /\
      fst (draws j s) <= within /\
      draws j s = (k, s2).
Proof.
  induction fuel as [| fuel IH]; intros s k s2; cbn [redraw].
  - destruct (Z.gtb_spec (fst (jKiss s)) within) as [Hgt | Hle];
      [discriminate |].
    intros H.
    assert (E : (fst (jKiss s), snd (jKiss s)) = (k, s2)) by congruence.
    exists 0%nat. cbn [draws].
    split; [lia |]. split; [intros i Hi; lia |]. split; [exact Hle |].
    rewrite <- E. apply surjective_pairing.
  - destruct (Z.gtb_spec (fst (jKiss s)) within) as [Hgt | Hle].
    + rewrite (surjective_pairing (jKiss (snd (jKiss s)))).
      intros H. apply IH in H. destruct H as (j & Hj & Hrej & Hacc & Hd).
      exists (S j). cbn [draws]. split; [lia |]. split.
      * intros [| i] Hi; cbn [draws]; [lia |]. apply Hrej. lia.
      * split; assumption.
    + intros H.
      assert (E : (fst (jKiss s), snd (jKiss s)) = (k, s2)) by congruence.
      exists 0%nat. cbn [draws].
      split; [lia |]. split; [intros i Hi; lia |]. split; [exact Hle |].
      rewrite <- E. apply surjective_pairing.
Qed.

(** The loop gives up exactly when every draw it may look at is above
    the bound. *)
Lemma redraw_gives_up (within : Z) :
  forall (fuel : nat) (s : state),
    redraw fuel within (fst (jKiss s)) (snd (jKiss s)) = None <->
    (forall i, (i <= fuel)%nat -> fst (draws i s) > within).
Proof.
  induction fuel as [| fuel IH]; intros s; cbn [redraw].
  - destruct (Z.gtb_spec (fst (jKiss s)) within) as [Hgt | Hle].
    + split; [| reflexivity]. intros _ i Hi.
      assert (i = 0%nat) by lia. subst i. cbn [draws]. lia.
    + split; [discriminate |]. intros H.
      specialize (H 0%nat ltac:(lia)). cbn [draws] in H. lia.
  - destruct (Z.gtb_spec (fst (jKiss s)) within) as [Hgt | Hle].
    + rewrite (surjective_pairing (jKiss (snd (jKiss s)))). rewrite IH.
      split.
      * intros H [| i] Hi; cbn [draws]; [lia |]. apply H. lia.
      * intros H i Hi. apply (H (S i)). lia.
    + split; [discriminate |]. intros H.
      specialize (H 0%nat ltac:(lia)). cbn [draws] in H. lia.
Qed.

(** X1: for 0 < range < 2^32 - 1, whatever [rand()] returns lies in
    [0, range); it is the residue of the draw that follows the first draw
    not above the bound, and the state left behind is the one after that
    following draw. *)
Theorem rand_result (fuel : nat) (range : Z) (s s' : state) (v : Z) :
  0 < range < JKISSMAX ->
  rand fuel range s = Some (v, s') ->
  0 <= v < range /\
  exists j : nat,
    (j <= fuel)%nat /\
    (forall i, (i < j)%nat -> fst (draws i s) > threshold range) /\
    fst (draws j s) <= threshold range /\
    v = fst (draws (S j) s) mod range /\
    s' = snd (draws (S j) s).
Proof.
  intros Hr Hrand. split; [exact (rand_below_range fuel range s s' v Hr Hrand) |].
  revert Hrand. unfold rand, threshold.
  assert (Hw : wrap32 range = range)
    by (apply wrap32_small; unfold is_u32, JKISSMAX in *; lia).
  rewrite (surjective_pairing (jKiss s)).
  destruct (Z.ltb_spec range JKISSMAX); [| lia]. rewrite Hw.
  destruct (redraw fuel _ (fst (jKiss s)) (snd (jKiss s)))
    as [[k2 s2] |] eqn:E; [| discriminate].
  apply redraw_inversion in E. destruct E as (j & Hj & Hrej & Hacc & Hd).
  destruct (jKiss s2) as [k s3] eqn:E3. intros Hv. injection Hv as <- <-.
  exists j. split; [exact Hj |]. split; [exact Hrej |]. split; [exact Hacc |].
  rewrite draws_succ, Hd. cbn [snd]. rewrite E3. cbn [fst snd].
  split; [| reflexivity].
  apply wrap32_small.
  pose proof (jKiss_draw_range s2) as Hk. rewrite E3 in Hk. cbn [fst] in Hk.
  unfold is_u32, JKISSMAX in *. pose proof (Z.mod_pos_bound k range). lia.
Qed.

Lemma rand_result_default_seeds :
  0 < 100 < JKISSMAX /\ 0 <= 93 < 100.
Proof.
  assert (Hr : 0 < 100 < JKISSMAX) by (unfold JKISSMAX; lia).
  split; [exact Hr |].
  exact (proj1 (rand_result 5 100 default_seeds
                  (snd (draws 1 default_seeds)) 93 Hr eq_refl)).
Defined.

(** X2: for 0 < range < 2^32 - 1, [rand()] comes back within [fuel]
    repetitions of its loop exactly when one of the first [fuel + 1] draws
    is not above the bound; the only way not to return is an unbroken
    run of rejected draws. *)
Theorem rand_returns_iff (fuel : nat) (range : Z) (s : state) :
  0 < range < JKISSMAX ->
  rand fuel range s <> None <->
  exists j : nat, (j <= fuel)%nat /\ fst (draws j s) <= threshold range.
Proof.
  intros Hr. unfold rand, threshold.
  rewrite (surjective_pairing (jKiss s)).
  destruct (Z.ltb_spec range JKISSMAX); [| lia].
  assert (Hw : wrap32 range = range)
    by (apply wrap32_small; unfold is_u32, JKISSMAX in *; lia).
  rewrite Hw.
  pose proof (redraw_gives_up (JKISSMAX - JKISSMAX mod range) fuel s) as Hnone.
  destruct (redraw fuel _ (fst (jKiss s)) (snd (jKiss s)))
    as [[k2 s2] |] eqn:E.
  - split.
    + intros _. apply redraw_inversion in E.
      destruct E as (j & Hj & _ & Hacc & _). exists j. auto.
    + intros _. destruct (jKiss s2). discriminate.
  - split; [intros Hn; contradiction Hn; reflexivity |].
    intros (j & Hj & Hacc) _.
    pose proof (proj1 Hnone eq_refl j Hj). lia.
Qed.

Lemma rand_returns_iff_default_seeds :
  0 < 100 < JKISSMAX /\ rand 0 100 default_seeds <> None.
Proof.
  assert (Hr : 0 < 100 < JKISSMAX) by (unfold JKISSMAX; lia).
  split; [exact Hr |].
  apply (proj2 (rand_returns_iff 0 100 default_seeds Hr)).
  exists 0%nat. split; [apply le_n |]. vm_compute. discriminate.
Defined.

(** X3: from range 2^32 - 1 on, [rand()] never enters its loop: it
    consumes exactly one draw and returns it unchanged, so the value is
    any 32-bit word, however large the range is. *)
Theorem rand_large_range (fuel : nat) (range : Z) (s : state) :
  JKISSMAX <= range ->
  rand fuel range s = Some (draws 0 s) /\
  0 <= fst (draws 0 s) <= JKISSMAX.
Proof.
  intros Hr. destruct (rand_passthrough fuel range s Hr) as [Hrand Hb].
  cbn [draws]. split; [exact Hrand |]. unfold JKISSMAX. lia.
Qed.

Lemma rand_large_range_default_seeds :
  JKISSMAX <= 2 ^ 40 /\
  rand 0 (2 ^ 40) default_seeds = Some (draws 0 default_seeds).
Proof.
  assert (Hr : JKISSMAX <= 2 ^ 40) by (unfold JKISSMAX; lia).
  split; [exact Hr |].
  exact (proj1 (rand_large_range 0 (2 ^ 40) default_seeds Hr)).
Defined.

(** X4: a generator for range 1 rejects nothing: from every state its
    [rand()] returns 0 and consumes exactly two draws. *)
Theorem rand_range_one (fuel : nat) (s : state) :
  rand fuel 1 s = Some (0, snd (draws 1 s)).
Proof.
  rewrite (rand_returns 1 0 fuel s).
  - rewrite Z.mod_1_r. reflexivity.
  - unfold JKISSMAX. lia.
  - lia.
  - intros i Hi. lia.
  - pose proof (draws_range 0 s) as Hd. unfold is_u32 in Hd.
    rewrite Z.mod_1_r. unfold JKISSMAX. lia.
Qed.

(** X5: for 0 < range < 2^32 - 1 the bound of the rejection loop is a
    multiple of range, the loop lets a raw draw pass exactly when it is at
    most that bound, and the raw values it rejects are the top
    (2^32 - 1) mod range ones, fewer than range. *)
Theorem rejection_region (range : Z) :
  0 < range < JKISSMAX ->
  threshold range mod range = 0 /\
  0 <= JKISSMAX - threshold range < range /\
  forall (fuel : nat) (kiss : Z) (s : state),
    (kiss <= threshold range ->
     redraw fuel (threshold range) kiss s = Some (kiss, s)) /\
    (threshold range < kiss ->
     redraw fuel (threshold range) kiss s
     = match fuel with
       | O => None
       | S fuel' =>
         redraw fuel' (threshold range) (fst (jKiss s)) (snd (jKiss s))
       end).
Proof.
  intros Hr. unfold threshold.
  pose proof (Z.mod_pos_bound JKISSMAX range ltac:(lia)) as Hm.
  split.
  { rewrite Zminus_mod, Z.mod_mod, Z.sub_diag by lia. apply Z.mod_0_l. lia. }
  split; [lia |].
  intros fuel kiss s. split; intros Hk.
  - destruct fuel; cbn [redraw];
      (destruct (Z.gtb_spec kiss (JKISSMAX - JKISSMAX mod range)); [lia |]);
      reflexivity.
  - destruct fuel as [| fuel]; cbn [redraw];
      (destruct (Z.gtb_spec kiss (JKISSMAX - JKISSMAX mod range)); [| lia]);
      [reflexivity |].
    rewrite (surjective_pairing (jKiss s)) at 1. reflexivity.
Qed.

Lemma rejection_region_range_100 :
  0 < 100 < JKISSMAX /\
  threshold 100 mod 100 = 0 /\ 0 <= JKISSMAX - threshold 100 < 100.
Proof.
  assert (Hr : 0 < 100 < JKISSMAX) by (unfold JKISSMAX; lia).
  split; [exact Hr |].
  split; [exact (proj1 (rejection_region 100 Hr)) |].
  exact (proj1 (proj2 (rejection_region 100 Hr))).
Defined.

(** *** The values that end the redraw loop *)

(** The negated condition of [while (kiss > within_multiple_of_range)]. *)
Definition ends_loop (range kiss : Z) : bool :=
  negb (kiss >? threshold range).

(** How many of the values 0, ..., [n - 1] end the loop and leave the
    remainder [v] modulo [range]. *)
Definition count_ending (range v : Z) (n : nat) : Z :=
  Z.of_nat (length (filter (fun k => ends_loop range k && (k mod range =? v))
                           (map Z.of_nat (seq 0 n)))).

Lemma count_ending_succ range v n :
  count_ending range v (S n)
  = count_ending range v n
    + (if ends_loop range (Z.of_nat n) && (Z.of_nat n mod range =? v)
       then 1 else 0).
Proof.
  unfold count_ending. rewrite seq_S, map_app, filter_app, length_app.
  cbn [Nat.add map filter].
  destruct (ends_loop range (Z.of_nat n) && (Z.of_nat n mod range =? v));
    cbn [length]; lia.
Qed.

Lemma div_between (r m q : Z) :
  0 < r -> r * q <= m < r * q + r -> m / r = q.
Proof.
  intros Hr Hm. symmetry. apply Z.div_unique with (r := m - r * q); lia.
Qed.

Lemma div_step (r v n : Z) :
  0 < r -> 0 <= v < r -> 0 <= n ->
  (n + 1 + r - 1 - v) / r
  = (n + r - 1 - v) / r + (if n mod r =? v then 1 else 0).
Proof.
  intros Hr Hv Hn.
  pose proof (Z.div_mod n r ltac:(lia)) as D.
  pose proof (Z.mod_pos_bound n r Hr) as B.
  set (a := n / r) in *. set (b := n mod r) in *.
  destruct (Z.eqb_spec b v) as [E | E].
  - rewrite (div_between r (n + 1 + r - 1 - v) (a + 1)) by lia.
    rewrite (div_between r (n + r - 1 - v) a) by lia. reflexivity.
  - destruct (Z.lt_ge_cases b v) as [Hlt | Hge].
    + rewrite (div_between r (n + 1 + r - 1 - v) a) by lia.
      rewrite (div_between r (n + r - 1 - v) a) by lia. lia.
    + rewrite (div_between r (n + 1 + r - 1 - v) (a + 1)) by lia.
      rewrite (div_between r (n + r - 1 - v) (a + 1)) by lia. lia.
Qed.

Lemma count_ending_closed range v (n : nat) :
  0 < range -> 0 <= v < range -> 0 <= threshold range ->
  count_ending range v n
  = (Z.min (Z.of_nat n) (threshold range + 1) + range - 1 - v) / range.
Proof.
  intros Hr Hv Ht. induction n as [| n IH].
  - unfold count_ending. cbn [seq map filter length Z.of_nat].
    rewrite Z.min_l by lia. symmetry. apply Z.div_small. lia.
  - rewrite count_ending_succ, IH. unfold ends_loop.
    destruct (Z.gtb_spec (Z.of_nat n) (threshold range)) as [Hgt | Hle];
      cbn [negb andb].
    + rewrite !Z.min_r by lia. lia.
    + rewrite !Z.min_l by lia.
      replace (Z.of_nat (S n)) with (Z.of_nat n + 1) by lia.
      rewrite (div_step range v (Z.of_nat n)) by lia. reflexivity.
Qed.

(** X6: the 32-bit values that end the redraw loop are those from 0 up
    to and including [within_multiple_of_range], one more than a multiple
    of [range]: for every remainder other than 0 exactly
    [within_multiple_of_range / range] of them leave that remainder, and
    one more of them leaves the remainder 0. *)
Theorem loop_exit_values_per_remainder (range v : Z) :
  0 < range < JKISSMAX -> 0 <= v < range ->
  count_ending range v (Z.to_nat (2 ^ 32))
  = threshold range / range + (if v =? 0 then 1 else 0).
Proof.
  intros Hr Hv.
  pose proof (Z.mod_pos_bound JKISSMAX range ltac:(lia)) as Hm.
  pose proof (Z.div_mod JKISSMAX range ltac:(lia)) as D.
  assert (Ht : threshold range = range * (JKISSMAX / range))
    by (unfold threshold; lia).
  assert (Hq : 0 <= JKISSMAX / range)
    by (apply Z.div_pos; unfold JKISSMAX in *; lia).
  assert (Ht0 : 0 <= threshold range) by (unfold threshold; lia).
  assert (Htm : threshold range <= JKISSMAX) by (unfold threshold; lia).
  rewrite count_ending_closed by lia.
  rewrite Z2Nat.id by lia.
  rewrite Z.min_r by (unfold JKISSMAX in *; lia).
  assert (Hdiv : threshold range / range = JKISSMAX / range).
  { apply div_between; lia. }
  rewrite Hdiv.
  destruct (Z.eqb_spec v 0) as [-> | Hv0].
  - apply div_between; lia.
  - rewrite Z.add_0_r. apply div_between; lia.
Qed.

Lemma loop_exit_values_range_3 :
  (0 < 3 < JKISSMAX /\ 0 <= 0 < 3) /\
  count_ending 3 0 (Z.to_nat (2 ^ 32)) = threshold 3 / 3 + 1.
Proof.
  assert (H : 0 < 3 < JKISSMAX) by (unfold JKISSMAX; lia).
  split; [split; [exact H | lia] |].
  exact (loop_exit_values_per_remainder 3 0 H ltac:(lia)).
Defined.

(** *** The constructor over the life of a process *)

(** The outcome of the [k]-th construction (for one integer type, whose
    static counter starts at 0) when the device holds [d] at the start;
    for [k = 0] nothing has been constructed yet.  A failed read ends the
    sequence. *)
Fixpoint nth_construction (k : nat) (d : device) : option constructed :=
  match k with
  | O => Some (mkConstructed 0 default_seeds d false)
  | S k' =>
    match nth_construction k' d with
    | None => None
    | Some r => construct (num_of_initializations r) (dev r)
    end
  end.

(** X7: as long as the [int] counter does not overflow, the [k]-th
    construction leaves the counter at [k]; it reads the device exactly
    when [k] is a multiple of 10000, and every other construction yields
    the default seeds. *)
Theorem reseed_schedule (k : nat) (d : device) (r : constructed) :
  Z.of_nat (S k) <= 2 ^ 31 - 1 ->
  nth_construction (S k) d = Some r ->
  num_of_initializations r = Z.of_nat (S k) /\
  (reseeded r = true <-> Z.of_nat (S k) mod 10000 = 0) /\
  (reseeded r = false -> seeds r = default_seeds).
Proof.
  assert (Hcount : forall j r0, nth_construction j d = Some r0 ->
                                num_of_initializations r0 = Z.of_nat j).
  { induction j as [| j IH]; intros r0; cbn [nth_construction].
    - intros H. injection H as <-. reflexivity.
    - destruct (nth_construction j d) as [r1 |]; [| discriminate].
      intros H. apply construct_reseeded in H.
      + rewrite (proj1 H), (IH r1 eq_refl). lia.
      + rewrite (IH r1 eq_refl). lia. }
  intros _ H. split; [exact (Hcount (S k) r H) |].
  cbn [nth_construction] in H.
  destruct (nth_construction k d) as [r1 |] eqn:E; [| discriminate].
  pose proof (Hcount k r1 E) as Hk.
  apply construct_reseeded in H; [| lia].
  destruct H as (_ & Hiff & Hdef). rewrite Hk in Hiff.
  unfold how_often_to_reseed in Hiff.
  replace (Z.of_nat k + 1) with (Z.of_nat (S k)) in Hiff by lia.
  split; [exact Hiff |]. intros Hf. exact (proj1 (Hdef Hf)).
Qed.

Lemma reseed_schedule_third_construction :
  nth_construction 3 [7; 8; 9; 10]
  = Some (mkConstructed 3 default_seeds [7; 8; 9; 10] false) /\
  (false = true <-> 3 mod 10000 = 0).
Proof.
  split; [reflexivity |].
  exact (proj1 (proj2
           (reseed_schedule 2 [7; 8; 9; 10]
              (mkConstructed 3 default_seeds [7; 8; 9; 10] false)
              ltac:(cbn; lia) eq_refl))).
Defined.

Lemma read_nonzero_spec (d : device) (w : Z) (d' : device) :
  read_nonzero d = Some (w, d') ->
  is_u32 w /\ w <> 0 /\ (length d' < length d)%nat.
Proof.
  induction d as [| a d IH]; cbn [read_nonzero]; [discriminate |].
  destruct (Z.eqb_spec (wrap32 a) 0) as [E | E].
  - intros H. apply IH in H. cbn [length]. intuition lia.
  - intros H. injection H as <- <-. cbn [length].
    split; [apply wrap32_range |]. split; [exact E | lia].
Qed.

(** X8: a construction that reseeds takes at least four words from the
    device and yields 32-bit seeds with y different from 0 and
    1 <= c <= 698769068; with fewer than four words left on the device it
    fails with the [FactorError] of the failed read. *)
Theorem reseeded_seeds (count : Z) (d : device) :
  0 <= count < 2 ^ 31 - 1 ->
  (count + 1) mod how_often_to_reseed = 0 ->
  ((length d < 4)%nat -> construct count d = None) /\
  (forall r : constructed,
     construct count d = Some r ->
     reseeded r = true /\
     state_ok (seeds r) /\
     y (seeds r) <> 0 /\
     1 <= c (seeds r) <= JKISS_MAGIC_NUM /\
     (length (dev r) + 4 <= length d)%nat).
Proof.
  intros Hc Hm. unfold construct.
  rewrite Z.rem_mod_nonneg by (unfold how_often_to_reseed; lia).
  rewrite Hm. cbn [Z.eqb]. unfold trueRandomNumberFromDevice.
  split.
  - intros Hlen. destruct d as [| x0 d1]; [reflexivity |].
    destruct (read_nonzero d1) as [[y0 d2] |] eqn:Ey; [| reflexivity].
    apply read_nonzero_spec in Ey. destruct Ey as (_ & _ & Hl).
    destruct d2 as [| z0 d3]; [reflexivity |].
    destruct d3 as [| r0 d4]; [reflexivity |].
    cbn [length] in *. lia.
  - intros r. destruct d as [| x0 d1]; [discriminate |].
    destruct (read_nonzero d1) as [[y0 d2] |] eqn:Ey; [| discriminate].
    apply read_nonzero_spec in Ey. destruct Ey as (Hy & Hy0 & Hl).
    destruct d2 as [| z0 d3]; [discriminate |].
    destruct d3 as [| r0 d4]; [discriminate |].
    intros H. injection H as <-. cbn [reseeded seeds dev x y z c length] in *.
    assert (Hrem : 0 <= Z.rem (wrap32 r0) JKISS_MAGIC_NUM < JKISS_MAGIC_NUM).
    { pose proof (wrap32_range r0) as Hr0. unfold is_u32 in Hr0.
      rewrite Z.rem_mod_nonneg by (unfold JKISS_MAGIC_NUM; lia).
      apply Z.mod_pos_bound. unfold JKISS_MAGIC_NUM. lia. }
    assert (Hcw : wrap32 (Z.rem (wrap32 r0) JKISS_MAGIC_NUM + 1)
                  = Z.rem (wrap32 r0) JKISS_MAGIC_NUM + 1).
    { apply wrap32_small. unfold is_u32, JKISS_MAGIC_NUM in *. lia. }
    split; [reflexivity |]. split.
    { unfold state_ok. cbn [x y z c].
      repeat split; try apply wrap32_range; apply Hy. }
    split; [exact Hy0 |]. split; [rewrite Hcw; lia | lia].
Qed.

Lemma reseeded_seeds_ten_thousandth :
  (0 <= 9999 < 2 ^ 31 - 1 /\ (9999 + 1) mod how_often_to_reseed = 0) /\
  construct 9999 [5; 6; 7] = None.
Proof.
  split; [split; [lia | reflexivity] |].
  apply (proj1 (reseeded_seeds 9999 [5; 6; 7] ltac:(lia) eq_refl)).
  cbn. lia.
Defined.

(** *** The state transition of [jKiss()] *)

(** The multiplier of the multiply-with-carry step. *)
Definition MWC_MULTIPLIER : Z := 4294584393.

Lemma divides_u32_zero (v : Z) :
  -(2 ^ 32) < v < 2 ^ 32 -> (2 ^ 32 | v) -> v = 0.
Proof. intros Hv [k Hk]. lia. Qed.

Lemma mul_fixed_zero (m v : Z) :
  Z.gcd (2 ^ 32) (m - 1) = 1 -> is_u32 v -> v = wrap32 (v * m) -> v = 0.
Proof.
  intros Hg Hv E. unfold wrap32 in E.
  pose proof (Z.div_mod (v * m) (2 ^ 32) ltac:(lia)) as D.
  rewrite <- E in D.
  apply divides_u32_zero; [unfold is_u32 in Hv; lia |].
  apply Z.gauss with (m := m - 1); [| exact Hg].
  exists (v * m / 2 ^ 32). lia.
Qed.

Lemma wrap32_lxor (a b : Z) :
  wrap32 (Z.lxor a b) = Z.lxor (wrap32 a) (wrap32 b).
Proof.
  unfold wrap32. rewrite <- !Z.land_ones by lia.
  apply Z.bits_inj'. intros n Hn.
  rewrite !Z.lxor_spec, !Z.land_spec, !Z.lxor_spec.
  destruct (Z.testbit a n), (Z.testbit b n), (Z.testbit (Z.ones 32) n);
    reflexivity.
Qed.

Lemma lxor_swap (a b a' b' : Z) :
  Z.lxor a a' = Z.lxor b b' -> Z.lxor a b = Z.lxor a' b'.
Proof.
  intros H. apply Z.bits_inj'. intros n Hn.
  apply (f_equal (fun v => Z.testbit v n)) in H.
  rewrite !Z.lxor_spec in *.
  destruct (Z.testbit a n), (Z.testbit b n), (Z.testbit a' n),
    (Z.testbit b' n); cbn in *; congruence.
Qed.

(** One stage [y ^= f(y)] of the shift-register step, for a shift [f]. *)
Section XorStage.

Variable f : Z -> Z.
Hypothesis f_linear : forall a b, f (Z.lxor a b) = Z.lxor (f a) (f b).
Hypothesis f_fixed : forall d, is_u32 d -> d = f d -> d = 0.

Lemma xor_stage_injective (a b : Z) :
  is_u32 a -> is_u32 b -> Z.lxor a (f a) = Z.lxor b (f b) -> a = b.
Proof.
  intros Ha Hb H. apply lxor_swap in H. rewrite <- f_linear in H.
  apply Z.lxor_eq. apply f_fixed; [apply lxor_u32; assumption | exact H].
Qed.

End XorStage.

Definition shl (k v : Z) : Z := wrap32 (Z.shiftl v k).

Lemma shl_linear k a b : shl k (Z.lxor a b) = Z.lxor (shl k a) (shl k b).
Proof. unfold shl. rewrite Z.shiftl_lxor. apply wrap32_lxor. Qed.

Lemma shl_fixed k d :
  0 <= k -> Z.gcd (2 ^ 32) (2 ^ k - 1) = 1 ->
  is_u32 d -> d = shl k d -> d = 0.
Proof.
  intros Hk Hg Hd E. unfold shl in E. rewrite Z.shiftl_mul_pow2 in E by lia.
  exact (mul_fixed_zero (2 ^ k) d Hg Hd E).
Qed.

Lemma shr_fixed d : is_u32 d -> d = Z.shiftr d 7 -> d = 0.
Proof.
  unfold is_u32. intros Hd E. rewrite Z.shiftr_div_pow2 in E by lia.
  change (2 ^ 7) with 128 in E.
  pose proof (Z.div_mod d 128 ltac:(lia)) as D.
  pose proof (Z.mod_pos_bound d 128 ltac:(lia)) as M. lia.
Qed.

(** The shift-register step on [y] as one function. *)
Definition xorshift (v : Z) : Z :=
  let y1 := Z.lxor v (shl 5 v) in
  let y2 := Z.lxor y1 (Z.shiftr y1 7) in
  Z.lxor y2 (shl 22 y2).

Lemma jKiss_y s : y (snd (jKiss s)) = xorshift (y s).
Proof. reflexivity. Qed.

Lemma shl_u32 k v : is_u32 (shl k v).
Proof. apply wrap32_range. Qed.

Lemma xorshift_injective (a b : Z) :
  is_u32 a -> is_u32 b -> xorshift a = xorshift b -> a = b.
Proof.
  intros Ha Hb H. unfold xorshift in H. cbv zeta in H.
  assert (H1a : is_u32 (Z.lxor a (shl 5 a)))
    by (apply lxor_u32; [assumption | apply shl_u32]).
  assert (H1b : is_u32 (Z.lxor b (shl 5 b)))
    by (apply lxor_u32; [assumption | apply shl_u32]).
  assert (H2a : is_u32 (Z.lxor (Z.lxor a (shl 5 a))
                           (Z.shiftr (Z.lxor a (shl 5 a)) 7)))
    by (apply lxor_u32; [assumption | apply shiftr_u32; [lia | assumption]]).
  assert (H2b : is_u32 (Z.lxor (Z.lxor b (shl 5 b))
                           (Z.shiftr (Z.lxor b (shl 5 b)) 7)))
    by (apply lxor_u32; [assumption | apply shiftr_u32; [lia | assumption]]).
  assert (S22 := xor_stage_injective (shl 22) (shl_linear 22)
                   (fun d => shl_fixed 22 d ltac:(lia) eq_refl)).
  assert (S7 := xor_stage_injective (fun v => Z.shiftr v 7)
                  (fun u v => Z.shiftr_lxor u v 7) shr_fixed).
  assert (S5 := xor_stage_injective (shl 5) (shl_linear 5)
                  (fun d => shl_fixed 5 d ltac:(lia) eq_refl)).
  apply S5; [exact Ha | exact Hb |].
  apply S7; [exact H1a | exact H1b |].
  apply S22; [exact H2a | exact H2b |].
  exact H.
Qed.

Lemma xorshift_0 : xorshift 0 = 0.
Proof. reflexivity. Qed.

(** The multiply-with-carry step: no 64-bit wrap-around happens, and the
    new [c] and [z] are the high and low words of [t]. *)
Lemma mwc_words (s : state) :
  is_u32 (z s) -> is_u32 (c s) ->
  MWC_MULTIPLIER * z s + c s
  = 2 ^ 32 * c (snd (jKiss s)) + z (snd (jKiss s)).
Proof.
  unfold is_u32, MWC_MULTIPLIER. intros Hz Hc. unfold jKiss. cbn [snd z c].
  set (t := 4294584393 * z s + c s).
  assert (Ht : 0 <= t < 2 ^ 64) by (subst t; lia).
  assert (Hw : wrap64 t = t) by (unfold wrap64; apply Z.mod_small; exact Ht).
  rewrite Hw. rewrite Z.shiftr_div_pow2 by lia.
  assert (Hq : 0 <= t / 2 ^ 32 < 2 ^ 32).
  { split; [apply Z.div_pos; lia |].
    apply Z.div_lt_upper_bound; lia. }
  rewrite (wrap32_small (t / 2 ^ 32)) by exact Hq.
  unfold wrap32. apply Z.div_mod. lia.
Qed.

Lemma jKiss_carry (s : state) :
  state_ok s -> c s < MWC_MULTIPLIER -> c (snd (jKiss s)) < MWC_MULTIPLIER.
Proof.
  intros Hs Hc. pose proof (jKiss_state_ok s Hs) as Hs'.
  destruct Hs as (_ & _ & Hz & Hc0). destruct Hs' as (_ & _ & Hz' & Hc').
  pose proof (mwc_words s Hz Hc0) as E.
  unfold is_u32, MWC_MULTIPLIER in *. lia.
Qed.

Lemma lcg_injective (a b : Z) :
  is_u32 a -> is_u32 b ->
  wrap32 (314527869 * a + 1234567) = wrap32 (314527869 * b + 1234567) ->
  a = b.
Proof.
  intros Ha Hb E. unfold wrap32 in E.
  pose proof (Z.div_mod (314527869 * a + 1234567) (2 ^ 32) ltac:(lia)) as Da.
  pose proof (Z.div_mod (314527869 * b + 1234567) (2 ^ 32) ltac:(lia)) as Db.
  rewrite E in Da.
  assert (D : (2 ^ 32 | 314527869 * (a - b))).
  { exists ((314527869 * a + 1234567) / 2 ^ 32
            - (314527869 * b + 1234567) / 2 ^ 32). lia. }
  apply Z.gauss in D; [| reflexivity].
  apply divides_u32_zero in D; [lia | unfold is_u32 in *; lia].
Qed.

(** X9: one call of [jKiss()] leaves [y] at zero exactly when it was zero
    before, and leaves [z] and [c] both at zero exactly when both were
    zero before: a degenerate word never recovers, and a good one never
    degenerates. *)
Theorem jKiss_degenerate_words (s : state) :
  state_ok s ->
  (y (snd (jKiss s)) = 0 <-> y s = 0) /\
  (z (snd (jKiss s)) = 0 /\ c (snd (jKiss s)) = 0 <-> z s = 0 /\ c s = 0).
Proof.
  intros Hs. pose proof (jKiss_state_ok s Hs) as Hs'.
  destruct Hs as (_ & Hy & Hz & Hc). destruct Hs' as (_ & _ & Hz' & Hc').
  split.
  - rewrite jKiss_y. split.
    + intros H. apply xorshift_injective;
        [exact Hy | unfold is_u32; lia | rewrite xorshift_0; exact H].
    + intros ->. apply xorshift_0.
  - pose proof (mwc_words s Hz Hc) as E.
    unfold is_u32, MWC_MULTIPLIER in *. lia.
Qed.

Lemma jKiss_degenerate_words_default_seeds :
  state_ok default_seeds /\
  (y (snd (jKiss default_seeds)) = 0 <-> y default_seeds = 0).
Proof.
  assert (H : state_ok default_seeds)
    by (unfold state_ok, is_u32; cbn; lia).
  split; [exact H |].
  exact (proj1 (jKiss_degenerate_words default_seeds H)).
Defined.

(** A state from which the generator runs as designed. *)
Definition seeded (s : state) : Prop :=
  state_ok s /\ y s <> 0 /\ (z s <> 0 \/ c s <> 0) /\ c s < MWC_MULTIPLIER.

Lemma jKiss_seeded s : seeded s -> seeded (snd (jKiss s)).
Proof.
  intros (Hs & Hy & Hzc & Hc).
  pose proof (jKiss_state_ok s Hs) as Hs'.
  pose proof (jKiss_carry s Hs Hc) as Hc'.
  destruct Hs as (Hx0 & Hy0 & Hz0 & Hc0).
  split; [exact Hs' |]. split.
  - rewrite jKiss_y. intros H. apply Hy.
    apply xorshift_injective;
      [exact Hy0 | unfold is_u32; lia | rewrite xorshift_0; exact H].
  - split; [| exact Hc'].
    pose proof (mwc_words s Hz0 Hc0) as E.
    destruct Hs' as (_ & _ & Hz' & Hc'').
    unfold is_u32, MWC_MULTIPLIER in *. lia.
Qed.

Lemma draws_seeded n s : seeded s -> seeded (snd (draws n s)).
Proof.
  revert s. induction n as [| n IH]; intros s Hs; cbn [draws].
  - apply jKiss_seeded. exact Hs.
  - apply IH. apply jKiss_seeded. exact Hs.
Qed.

Lemma construct_seeded (count : Z) (d : device) (r : constructed) :
  construct count d = Some r -> seeded (seeds r).
Proof.
  unfold construct.
  destruct (Z.rem (count + 1) how_often_to_reseed =? 0).
  - unfold trueRandomNumberFromDevice.
    destruct d as [| x0 d1]; [discriminate |].
    destruct (read_nonzero d1) as [[y0 d2] |] eqn:Ey; [| discriminate].
    apply read_nonzero_spec in Ey. destruct Ey as (Hy & Hy0 & _).
    destruct d2 as [| z0 d3]; [discriminate |].
    destruct d3 as [| r0 d4]; [discriminate |].
    intros H. injection H as <-. cbn [seeds].
    assert (Hrem : 0 <= Z.rem (wrap32 r0) JKISS_MAGIC_NUM < JKISS_MAGIC_NUM).
    { pose proof (wrap32_range r0) as Hr0. unfold is_u32 in Hr0.
      rewrite Z.rem_mod_nonneg by (unfold JKISS_MAGIC_NUM; lia).
      apply Z.mod_pos_bound. unfold JKISS_MAGIC_NUM. lia. }
    assert (Hcw : wrap32 (Z.rem (wrap32 r0) JKISS_MAGIC_NUM + 1)
                  = Z.rem (wrap32 r0) JKISS_MAGIC_NUM + 1).
    { apply wrap32_small. unfold is_u32, JKISS_MAGIC_NUM in *. lia. }
    unfold seeded, state_ok. cbn [x y z c]. rewrite Hcw.
    repeat split; try apply wrap32_range; try exact Hy0; try apply Hy;
      unfold JKISS_MAGIC_NUM, MWC_MULTIPLIER, is_u32 in *; lia.
  - intros H. injection H as <-. cbn [seeds].
    unfold seeded, state_ok, default_seeds, is_u32, MWC_MULTIPLIER.
    cbn [x y z c]. repeat split; lia.
Qed.

(** X10: a generator that the constructor returned, reseeded or not, never
    reaches a degenerate state: after any number of draws y is not zero,
    z and c are not both zero, and the carry c stays below the
    multiplier 4294584393. *)
Theorem constructed_never_degenerate
  (count : Z) (d : device) (r : constructed) (n : nat) :
  0 <= count < 2 ^ 31 - 1 ->
  construct count d = Some r ->
  let s := snd (draws n (seeds r)) in
  state_ok s /\ y s <> 0 /\ (z s <> 0 \/ c s <> 0) /\ c s < MWC_MULTIPLIER.
Proof.
  intros _ H. apply (draws_seeded n). exact (construct_seeded count d r H).
Qed.

Lemma constructed_never_degenerate_reseeded :
  construct 9999 [1; 0; 2; 3; 4]
  = Some (mkConstructed 10000 (mkState 1 2 3 5) [] true) /\
  y (snd (draws 2 (mkState 1 2 3 5))) <> 0.
Proof.
  split; [reflexivity |].
  exact (proj1 (proj2
    (constructed_never_degenerate 9999 [1; 0; 2; 3; 4]
       (mkConstructed 10000 (mkState 1 2 3 5) [] true) 2
       ltac:(lia) eq_refl))).
Defined.

(** X11: on states whose carry c is below the multiplier 4294584393, the
    state transition of [jKiss()] is injective: two different states
    never step to the same state. *)
Theorem jKiss_injective (s s' : state) :
  state_ok s -> state_ok s' ->
  c s < MWC_MULTIPLIER -> c s' < MWC_MULTIPLIER ->
  snd (jKiss s) = snd (jKiss s') -> s = s'.
Proof.
  intros Hs Hs' Hc Hc' E.
  pose proof (f_equal x E) as Ex. pose proof (f_equal y E) as Ey.
  pose proof (f_equal z E) as Ez. pose proof (f_equal c E) as Ec.
  destruct Hs as (Hx1 & Hy1 & Hz1 & Hc1).
  destruct Hs' as (Hx2 & Hy2 & Hz2 & Hc2).
  pose proof (mwc_words s Hz1 Hc1) as M1.
  pose proof (mwc_words s' Hz2 Hc2) as M2.
  rewrite Ez, Ec in M1. rewrite <- M2 in M1. clear M2 Ez Ec E.
  rewrite !jKiss_y in Ey. apply xorshift_injective in Ey; try assumption.
  apply lcg_injective in Ex; try assumption.
  assert (Hzz : z s = z s')
    by (unfold is_u32, MWC_MULTIPLIER in *; nia).
  assert (Hcc : c s = c s')
    by (unfold is_u32, MWC_MULTIPLIER in *; nia).
  destruct s, s'. cbn [x y z c] in *. congruence.
Qed.

Lemma jKiss_injective_default_seeds :
  (state_ok default_seeds /\ c default_seeds < MWC_MULTIPLIER) /\
  default_seeds = default_seeds.
Proof.
  assert (H : state_ok default_seeds)
    by (unfold state_ok, is_u32; cbn; lia).
  assert (Hc : c default_seeds < MWC_MULTIPLIER)
    by (unfold MWC_MULTIPLIER; cbn; lia).
  split; [split; assumption |].
  exact (jKiss_injective default_seeds default_seeds H H Hc Hc eq_refl).
Defined.

End UniformRandomIntegers.

(** ** Exit status and exceptions (Primpoly.hpp, Primpoly.cpp) *)

Module Primpoly.

(** [enum class ReturnStatus] *)
Inductive ReturnStatus : Type :=
| Success | AskForHelp | PNotPrime | RangeError | InternalError | Reserved.

Definition status_code (s : ReturnStatus) : Z :=
  match s with
  | Success => 0
  | AskForHelp => 1
  | PNotPrime => 2
  | RangeError => 3
  | InternalError => 4
  | Reserved => 5
  end.

(** The dynamic class of a thrown object.  [other_std_exception] stands
    for any further class derived from [std::exception], [foreign_object]
    for a thrown object that is not derived from it. *)
Inductive exception_class : Type :=
| PrimpolyError | ParserError | FactorError | FactorRangeError
| BigIntMathError | BigIntRangeError | BigIntDomainError
| BigIntUnderflow | BigIntOverflow | BigIntZeroDivide
| ArithModPError | PolynomialError | PolynomialRangeError | UnitTestError
| bad_alloc | runtime_error | std_exception
| other_std_exception | foreign_object.

Definition exception_class_eq_dec (a b : exception_class) : {a = b} + {a <> b}.
Proof. decide equality. Defined.

Definition same_class (a b : exception_class) : bool :=
  if exception_class_eq_dec a b then true else false.

(** The direct base class.  [PrimpolyError], [FactorError],
    [FactorRangeError], [ArithModPError] and [UnitTestError] are declared
    in the headers at hand.  The declarations of [ParserError], of the
    BigInt errors and of the polynomial errors are in headers that are not
    at hand; they are taken to follow the same pattern: the general error
    of a family derives from [runtime_error] and the special ones from the
    general error, which is also what the order of the handlers of [main]
    presupposes. *)
Definition base (e : exception_class) : option exception_class :=
  match e with
  | PrimpolyError => Some runtime_error
  | ParserError => Some runtime_error
  | FactorError => Some runtime_error
  | FactorRangeError => Some FactorError
  | BigIntMathError => Some runtime_error
  | BigIntRangeError => Some BigIntMathError
  | BigIntDomainError => Some BigIntMathError
  | BigIntUnderflow => Some BigIntMathError
  | BigIntOverflow => Some BigIntMathError
  | BigIntZeroDivide => Some BigIntMathError
  | ArithModPError => Some runtime_error
  | PolynomialError => Some runtime_error
  | PolynomialRangeError => Some PolynomialError
  | UnitTestError => Some runtime_error
  | bad_alloc => Some std_exception
  | runtime_error => Some std_exception
  | std_exception => None
  | other_std_exception => Some std_exception
  | foreign_object => None
  end.

(** The class itself followed by its bases, [depth] levels up. *)
Fixpoint lineage (depth : nat) (e : exception_class) : list exception_class :=
  e :: match depth, base e with
       | S d, Some b => lineage d b
       | _, _ => []
       end.

(** [catch( h & )] accepts an object of class [e]. *)
Definition is_a (e h : exception_class) : bool :=
  existsb (same_class h) (lineage 3 e).

(** The outcome of a computation that may throw. *)
Inductive result (A : Type) : Type :=
| Ok (a : A)
| Throw (e : exception_class).
Arguments Ok {A} a.
Arguments Throw {A} e.

Definition bind {A B : Type} (r : result A) (k : A -> result B) : result B :=
  match r with
  | Ok a => k a
  | Throw e => Throw e
  end.

Notation "x <- r ;; k" := (bind r (fun x => k))
  (at level 61, r at next level, right associativity).

(** The handlers of [main] in textual order, each with the status it
    returns; the closing [catch( ... )] is the default of [dispatch]. *)
Definition handlers : list (exception_class * ReturnStatus) :=
  [ (PrimpolyError, InternalError);
    (ParserError, RangeError);
    (FactorError, InternalError);
    (BigIntRangeError, InternalError);
    (BigIntDomainError, InternalError);
    (BigIntUnderflow, InternalError);
    (BigIntOverflow, InternalError);
    (BigIntZeroDivide, InternalError);
    (BigIntMathError, InternalError);
    (ArithModPError, InternalError);
    (PolynomialRangeError, RangeError);
    (PolynomialError, InternalError);
    (bad_alloc, InternalError);
    (std_exception, InternalError) ].

Fixpoint dispatch (hs : list (exception_class * ReturnStatus))
                  (e : exception_class) : ReturnStatus :=
  match hs with
  | [] => InternalError
  | (h, st) :: hs' => if is_a e h then st else dispatch hs' e
  end.

(** ** The driver (Primpoly.cpp, [main]) *)

Section Driver.

(** The collaborators of [main] whose code is in other files: the
    polynomial type with its enumeration, the order tester, the parser and
    the self-check. *)
Variable Polynomial : Type.

(** The members that [parseCommandLine] leaves in the parser. *)
Record PolyParser : Type := mkPolyParser {
  print_help_ : bool;
  test_polynomial_for_primitivity_ : bool;
  list_all_primitive_polynomials_ : bool;
  print_operation_count_ : bool;
  slow_confirm_ : bool;
  test_polynomial_ : Polynomial;
  n : Z;
  p : Z
}.

(** What [parser.parseCommandLine( argc, argv )] does on the arguments of
    this run, and what [UnitTest unitTest ; unitTest.run()] does. *)
Variable parseCommandLine : result PolyParser.
Variable unitTest_run : result bool.

Variable initialTrialPoly : Z -> Z -> result Polynomial.
Variable nextTrialPoly : Polynomial -> Polynomial.

(** [PolyOrder order( f )], [order.resetPolynomial( f ) ;
    order.isPrimitive()], [order.maximal_order()] and the two getters. *)
Variable PolyOrder_new : Polynomial -> result unit.
Variable isPrimitive : Polynomial -> result bool.
Variable maximal_order : Polynomial -> result bool.
Variable getNumPrimPoly : Z.
Variable getMaxNumPoly : Z.

(** The locals of the search, and the polynomials written to the console
    as primitive, oldest first. *)
Record trial : Type := mkTrial {
  f : Polynomial;
  num_poly : Z;
  num_primitive_poly : Z;
  is_primitive_poly : bool;
  reported : list Polynomial
}.

(** The slow confirmation inside the loop. *)
Definition confirm (slow_confirm : bool) (g : Polynomial) : result unit :=
  if slow_confirm then
    ok <- maximal_order g ;;
    if ok then Ok tt else Throw PolynomialError
  else Ok tt.

(** One pass through the body of the [do ... while].  The boolean is
    [true] when the loop is left after this pass, by [break] or because
    [stopTesting] is set. *)
Definition loop_body (parser : PolyParser) (t : trial) : result (bool * trial) :=
  let num_poly1 := num_poly t + 1 in
  is_prim <- isPrimitive (f t) ;;
  counted <- (if is_prim then
                _ <- confirm (slow_confirm_ parser) (f t) ;;
                Ok (num_primitive_poly t + 1, reported t ++ [f t])
              else Ok (num_primitive_poly t, reported t)) ;;
  let num_primitive_poly1 := fst counted in
  let reported1 := snd counted in
  if is_prim && (num_primitive_poly1 >=? getNumPrimPoly) then
    Ok (true, mkTrial (f t) num_poly1 num_primitive_poly1 is_prim reported1)
  else
    let tried_all_poly := num_poly1 >=? getMaxNumPoly in
    let stopTesting :=
      tried_all_poly
      || (negb (list_all_primitive_polynomials_ parser) && is_prim) in
    Ok (stopTesting,
        mkTrial (nextTrialPoly (f t)) num_poly1 num_primitive_poly1 is_prim
                reported1).

(** The loop; [fuel] bounds the number of times it is re-entered and
    [None] says that the bound was too small. *)
Fixpoint trials (fuel : nat) (parser : PolyParser) (t : trial)
  : option (result trial) :=
  match loop_body parser t with
  | Throw e => Some (Throw e)
  | Ok (true, t') => Some (Ok t')
  | Ok (false, t') =>
    match fuel with
    | O => None
    | S fuel' => trials fuel' parser t'
    end
  end.

(** The self-check: a failed run and a [UnitTestError] both become a
    [PrimpolyError]. *)
Definition self_check : result unit :=
  match unitTest_run with
  | Ok true => Ok tt
  | Ok false => Throw PrimpolyError
  | Throw e => if is_a e UnitTestError then Throw PrimpolyError else Throw e
  end.

(** The branch that tests the polynomial given by the user. *)
Definition test_given (parser : PolyParser) : result ReturnStatus :=
  let g := test_polynomial_ parser in
  _ <- PolyOrder_new g ;;
  _ <- isPrimitive g ;;
  _ <- (if slow_confirm_ parser then maximal_order g else Ok true) ;;
  Ok Success.

(** The branch that searches, from the initial trial polynomial on. *)
Definition search (fuel : nat) (parser : PolyParser)
  : option (result (ReturnStatus * trial)) :=
  match initialTrialPoly (n parser) (p parser) with
  | Throw e => Some (Throw e)
  | Ok f0 =>
    match PolyOrder_new f0 with
    | Throw e => Some (Throw e)
    | Ok _ =>
      match trials fuel parser (mkTrial f0 0 0 false []) with
      | None => None
      | Some (Throw e) => Some (Throw e)
      | Some (Ok t) =>
        if negb (list_all_primitive_polynomials_ parser)
           && negb (is_primitive_poly t)
        then Some (Throw PolynomialError)
        else Some (Ok (Success, t))
      end
    end
  end.

(** The [try] block of [main]. *)
Definition main_try (fuel : nat) : option (result ReturnStatus) :=
  match parseCommandLine with
  | Throw e => Some (Throw e)
  | Ok parser =>
    if print_help_ parser then Some (Ok AskForHelp)
    else
      match self_check with
      | Throw e => Some (Throw e)
      | Ok _ =>
        if test_polynomial_for_primitivity_ parser
        then Some (test_given parser)
        else
          match search fuel parser with
          | None => None
          | Some (Throw e) => Some (Throw e)
          | Some (Ok (st, _)) => Some (Ok st)
          end
      end
  end.

(** [main]: the value handed back to the operating system. *)
Definition main (fuel : nat) : option ReturnStatus :=
  match main_try fuel with
  | None => None
  | Some (Ok st) => Some st
  | Some (Throw e) => Some (dispatch handlers e)
  end.

(** The trial polynomials in the order of the search. *)
Fixpoint candidate (f0 : Polynomial) (k : nat) : Polynomial :=
  match k with
  | O => f0
  | S k' => nextTrialPoly (candidate f0 k')
  end.

(** *** A run of the loop against given verdicts

    [verdict i] is the answer of the tester on the [i]-th trial
    polynomial; [accepted j] lists the trial polynomials among the first
    [j] that were found primitive, and [at_pass j] is the state in which
    the loop body is entered for the [j]-th time (counting from 0). *)

Section Run.

Variable parser : PolyParser.
Variable f0 : Polynomial.
Variable verdict : nat -> bool.

Fixpoint accepted (j : nat) : list Polynomial :=
  match j with
  | O => []
  | S j' => accepted j' ++ (if verdict j' then [candidate f0 j'] else [])
  end.

Definition count_accepted (j : nat) : Z := Z.of_nat (length (accepted j)).

Definition last_verdict (j : nat) : bool :=
  match j with
  | O => false
  | S j' => verdict j'
  end.

Definition at_pass (j : nat) : trial :=
  mkTrial (candidate f0 j) (Z.of_nat j) (count_accepted j) (last_verdict j)
          (accepted j).

Definition left_by_break (j : nat) : trial :=
  mkTrial (candidate f0 j) (Z.of_nat (S j)) (count_accepted (S j)) true
          (accepted (S j)).

Lemma count_accepted_succ j :
  count_accepted (S j) = count_accepted j + (if verdict j then 1 else 0).
Proof.
  unfold count_accepted. cbn [accepted]. rewrite length_app.
  destruct (verdict j); cbn [length]; lia.
Qed.

Lemma count_accepted_mono i j :
  (i <= j)%nat -> count_accepted i <= count_accepted j.
Proof.
  induction 1 as [| j _ IH]; [lia |].
  rewrite count_accepted_succ. destruct (verdict j); lia.
Qed.

Lemma loop_body_at_pass j :
  isPrimitive (candidate f0 j) = Ok (verdict j) ->
  (verdict j = true ->
   confirm (slow_confirm_ parser) (candidate f0 j) = Ok tt) ->
  loop_body parser (at_pass j)
  = Ok (if verdict j && (count_accepted (S j) >=? getNumPrimPoly)
        then (true, left_by_break j)
        else ((Z.of_nat (S j) >=? getMaxNumPoly)
              || (negb (list_all_primitive_polynomials_ parser) && verdict j),
              at_pass (S j))).
Proof.
  intros Hv Hc. unfold loop_body, at_pass, left_by_break.
  cbn [f num_poly num_primitive_poly reported].
  rewrite Hv. cbn [bind].
  rewrite count_accepted_succ. cbn [accepted last_verdict candidate].
  replace (Z.of_nat (S j)) with (Z.of_nat j + 1) by lia.
  destruct (verdict j).
  - rewrite (Hc eq_refl). cbn [bind fst snd andb].
    destruct (count_accepted j + 1 >=? getNumPrimPoly); reflexivity.
  - cbn [bind fst snd andb]. rewrite app_nil_r, Z.add_0_r. reflexivity.
Qed.

(** The pass in which the count of accepted polynomials reaches its
    final value. *)
Lemma last_accepted (m : nat) :
  1 <= count_accepted m ->
  exists k : nat,
    (k < m)%nat /\ verdict k = true /\
    count_accepted (S k) = count_accepted m.
Proof.
  induction m as [| m IH]; intros Hpos.
  - unfold count_accepted in Hpos. cbn in Hpos. lia.
  - destruct (verdict m) eqn:Ev.
    + exists m. split; [lia |]. split; [exact Ev | reflexivity].
    + assert (E : count_accepted (S m) = count_accepted m)
        by (rewrite count_accepted_succ, Ev; lia).
      rewrite E in Hpos. destruct (IH Hpos) as (k & Hk & Hv & Hc).
      exists k. split; [lia |]. split; [exact Hv |]. rewrite E. exact Hc.
Qed.

(** What [accepted] holds: the trial polynomials with a positive verdict,
    each once if the enumeration does not repeat itself. *)
Lemma In_accepted (j : nat) (g : Polynomial) :
  In g (accepted j) <->
  exists i : nat, (i < j)%nat /\ verdict i = true /\ g = candidate f0 i.
Proof.
  induction j as [| j IH]; cbn [accepted].
  - split; [intros [] | intros (i & Hi & _); lia].
  - rewrite in_app_iff, IH. split.
    + intros [(i & Hi & Hv & E) | Hin].
      * exists i. split; [lia |]. split; assumption.
      * destruct (verdict j) eqn:Ev; [| destruct Hin].
        destruct Hin as [E | []]. exists j. split; [lia |].
        split; [exact Ev | symmetry; exact E].
    + intros (i & Hi & Hv & E).
      destruct (Nat.eq_dec i j) as [-> | Hne].
      * right. rewrite Hv. left. symmetry. exact E.
      * left. exists i. split; [lia |]. split; assumption.
Qed.

Lemma NoDup_accepted (j : nat) :
  (forall i i' : nat, (i < j)%nat -> (i' < j)%nat ->
                      candidate f0 i = candidate f0 i' -> i = i') ->
  NoDup (accepted j).
Proof.
  induction j as [| j IH]; intros Hinj; cbn [accepted]; [constructor |].
  assert (Hj : NoDup (accepted j))
    by (apply IH; intros i i' Hi Hi'; apply Hinj; lia).
  destruct (verdict j); [| rewrite app_nil_r; exact Hj].
  apply NoDup_app; [exact Hj | constructor; [intros [] | constructor] |].
  intros g Hin [E | []]. subst g.
  apply In_accepted in Hin. destruct Hin as (i & Hi & _ & E).
  symmetry in E. apply Hinj in E; lia.
Qed.

(** Once the count has its final value, no later trial polynomial is
    accepted. *)
Lemma none_accepted_later (k m i : nat) :
  count_accepted (S k) = count_accepted m ->
  (i < m)%nat -> verdict i = true -> (i <= k)%nat.
Proof.
  intros Hc Hi Hv.
  destruct (Nat.le_gt_cases i k) as [Hle | Hgt]; [exact Hle | exfalso].
  pose proof (count_accepted_mono (S k) i ltac:(lia)) as H1.
  pose proof (count_accepted_mono (S i) m ltac:(lia)) as H2.
  rewrite count_accepted_succ, Hv in H2. lia.
Qed.

(** Passes that neither break nor set [stopTesting] are run through. *)
Lemma trials_continue (d : nat) :
  forall (j fuel : nat),
    (forall i, (j <= i < j + d)%nat ->
               loop_body parser (at_pass i) = Ok (false, at_pass (S i))) ->
    trials (d + fuel) parser (at_pass j) = trials fuel parser (at_pass (j + d)).
Proof.
  induction d as [| d IH]; intros j fuel Hcont.
  - rewrite Nat.add_0_r. reflexivity.
  - cbn [Nat.add trials]. rewrite (Hcont j) by lia.
    rewrite IH.
    + f_equal. f_equal. lia.
    + intros i Hi. apply Hcont. lia.
Qed.

End Run.

(** The state in which the loop is entered first. *)
Definition first_trial (f0 : Polynomial) : trial := mkTrial f0 0 0 false [].

Lemma at_pass_0 f0 verdict : at_pass f0 verdict 0 = first_trial f0.
Proof. reflexivity. Qed.

(** A pass that does not leave the loop has counted one more polynomial
    and has seen [tried_all_poly] false. *)
Lemma loop_body_continues parser t t' :
  loop_body parser t = Ok (false, t') ->
  num_poly t' = num_poly t + 1 /\ num_poly t + 1 < getMaxNumPoly.
Proof.
  unfold loop_body.
  destruct (isPrimitive (f t)) as [prim | e]; cbn [bind]; [| discriminate].
  destruct prim.
  - destruct (confirm (slow_confirm_ parser) (f t)) as [u | e];
      cbn [bind fst snd andb]; [| discriminate].
    destruct (num_primitive_poly t + 1 >=? getNumPrimPoly); [discriminate |].
    destruct (Z.geb_spec (num_poly t + 1) getMaxNumPoly);
      cbn [orb]; [discriminate |].
    intros Heq. injection Heq as _ <-. cbn [num_poly]. lia.
  - cbn [bind fst snd andb].
    destruct (Z.geb_spec (num_poly t + 1) getMaxNumPoly);
      cbn [orb]; [discriminate |].
    intros Heq. injection Heq as _ <-. cbn [num_poly]. lia.
Qed.

(** The loop comes to an end: fuel for [getMaxNumPoly] re-entries is
    always enough. *)
Lemma trials_total parser :
  forall (fuel : nat) (t : trial),
    getMaxNumPoly - num_poly t - 1 <= Z.of_nat fuel ->
    trials fuel parser t <> None.
Proof.
  induction fuel as [| fuel IH]; intros t Hfuel; cbn [trials].
  - destruct (loop_body parser t) as [[[|] t'] | e] eqn:E; try discriminate.
    apply loop_body_continues in E. lia.
  - destruct (loop_body parser t) as [[[|] t'] | e] eqn:E; try discriminate.
    apply loop_body_continues in E. apply IH. lia.
Qed.

(** Every outcome of the handlers: [RangeError] for a [ParserError] or a
    [PolynomialRangeError], [InternalError] for everything else. *)
Lemma dispatch_handlers (e : exception_class) :
  dispatch handlers e
  = if same_class e ParserError || same_class e PolynomialRangeError
    then RangeError else InternalError.
Proof. destruct e; reflexivity. Qed.

(** The search when no trial polynomial is accepted: all of them are
    tried and the loop is left with [is_primitive_poly] false. *)
Lemma trials_none_accepted parser f0 (fuel : nat) :
  (forall i, (i < Nat.max 1 (Z.to_nat getMaxNumPoly))%nat ->
             isPrimitive (candidate f0 i) = Ok false) ->
  (Z.to_nat getMaxNumPoly <= fuel)%nat ->
  trials fuel parser (first_trial f0)
  = Some (Ok (at_pass f0 (fun _ => false)
                      (Nat.max 1 (Z.to_nat getMaxNumPoly)))).
Proof.
  intros Hno Hfuel.
  set (verdict := fun _ : nat => false).
  remember (Nat.max 1 (Z.to_nat getMaxNumPoly)) as m eqn:Em.
  destruct m as [| d]; [lia |].
  assert (Hbody : forall i, (i <= d)%nat ->
            loop_body parser (at_pass f0 verdict i)
            = Ok (Z.of_nat (S i) >=? getMaxNumPoly, at_pass f0 verdict (S i))).
  { intros i Hi.
    rewrite (loop_body_at_pass parser f0 verdict i).
    - unfold verdict. cbn [andb]. rewrite andb_false_r, orb_false_r.
      reflexivity.
    - apply Hno. lia.
    - unfold verdict. discriminate. }
  rewrite <- (at_pass_0 f0 verdict).
  replace fuel with (d + (fuel - d))%nat by lia.
  rewrite trials_continue.
  - rewrite Nat.add_0_l.
    assert (Hlast : (Z.of_nat (S d) >=? getMaxNumPoly) = true).
    { destruct (Z.geb_spec (Z.of_nat (S d)) getMaxNumPoly); [reflexivity | lia]. }
    destruct (fuel - d)%nat; cbn [trials];
      rewrite (Hbody d) by lia; rewrite Hlast; reflexivity.
  - intros i Hi. rewrite (Hbody i) by lia.
    destruct (Z.geb_spec (Z.of_nat (S i)) getMaxNumPoly); [lia | reflexivity].
Qed.

(** C3: in find-one mode, when none of the trial polynomials up to
    [getMaxNumPoly] passes the test, the search tries them all
    ([num_poly] reaches the maximum), a [PolynomialError] leaves the [try]
    block and [main] returns [InternalError]. *)
Theorem find_one_exhausted_is_internal_error
    (parser : PolyParser) (f0 : Polynomial) (fuel : nat) :
  parseCommandLine = Ok parser ->
  print_help_ parser = false ->
  unitTest_run = Ok true ->
  test_polynomial_for_primitivity_ parser = false ->
  list_all_primitive_polynomials_ parser = false ->
  initialTrialPoly (n parser) (p parser) = Ok f0 ->
  PolyOrder_new f0 = Ok tt ->
  (forall i, (i < Nat.max 1 (Z.to_nat getMaxNumPoly))%nat ->
             isPrimitive (candidate f0 i) = Ok false) ->
  (Z.to_nat getMaxNumPoly <= fuel)%nat ->
  (exists t, trials fuel parser (first_trial f0) = Some (Ok t) /\
             num_poly t = Z.max 1 getMaxNumPoly /\
             is_primitive_poly t = false /\ reported t = []) /\
  main_try fuel = Some (Throw PolynomialError) /\
  main fuel = Some InternalError /\
  status_code InternalError = 4.
Proof.
  intros Hparse Hhelp Hunit Htest Hall Hinit Horder Hno Hfuel.
  pose proof (trials_none_accepted parser f0 fuel Hno Hfuel) as Hrun.
  assert (Hacc : forall j, accepted f0 (fun _ => false) j = []).
  { induction j as [| j IH]; [reflexivity |]. cbn [accepted]. rewrite IH.
    reflexivity. }
  split.
  { eexists. split; [exact Hrun |]. unfold at_pass.
    cbn [num_poly is_primitive_poly reported].
    split; [lia |]. split; [| apply Hacc].
    destruct (Nat.max 1 (Z.to_nat getMaxNumPoly)) eqn:E; [lia | reflexivity]. }
  assert (Htry : main_try fuel = Some (Throw PolynomialError)).
  { unfold main_try. rewrite Hparse, Hhelp. unfold self_check.
    rewrite Hunit, Htest. unfold search. rewrite Hinit, Horder.
    fold (first_trial f0). rewrite Hrun, Hall.
    unfold at_pass. cbn [is_primitive_poly].
    destruct (Nat.max 1 (Z.to_nat getMaxNumPoly)) eqn:E; [lia | reflexivity]. }
  split; [exact Htry |]. split; [| reflexivity].
  unfold main. rewrite Htry. reflexivity.
Qed.



(** What leaves the [try] block normally is [AskForHelp] for a help
    request and [Success] otherwise. *)
Lemma main_try_normal (fuel : nat) (st : ReturnStatus) :
  main_try fuel = Some (Ok st) ->
  match parseCommandLine with
  | Ok parser => st = if print_help_ parser then AskForHelp else Success
  | Throw _ => False
  end.
Proof.
  unfold main_try. destruct parseCommandLine as [parser | e]; [| discriminate].
  destruct (print_help_ parser); [intros H; injection H as <-; reflexivity |].
  destruct self_check as [u | e]; [| discriminate].
  destruct (test_polynomial_for_primitivity_ parser).
  - unfold test_given.
    destruct (PolyOrder_new _) as [u1 | e]; cbn [bind]; [| discriminate].
    destruct (isPrimitive _) as [b | e]; cbn [bind]; [| discriminate].
    destruct (slow_confirm_ parser); cbn [bind].
    + destruct (maximal_order _) as [b' | e]; cbn [bind]; [| discriminate].
      intros H; injection H as <-; reflexivity.
    + intros H; injection H as <-; reflexivity.
  - unfold search.
    destruct (initialTrialPoly _ _) as [f0 | e]; [| discriminate].
    destruct (PolyOrder_new f0) as [u1 | e]; [| discriminate].
    destruct (trials fuel parser _) as [[t | e] |]; try discriminate.
    destruct (negb _ && negb _); [discriminate |].
    intros H; injection H as <-; reflexivity.
Qed.

Lemma main_returns (fuel : nat) :
  (Z.to_nat getMaxNumPoly <= fuel)%nat -> main fuel <> None.
Proof.
  intros Hfuel. unfold main, main_try.
  destruct parseCommandLine as [parser | e]; [| discriminate].
  destruct (print_help_ parser); [discriminate |].
  destruct self_check as [u | e]; [| discriminate].
  destruct (test_polynomial_for_primitivity_ parser).
  - destruct (test_given parser); discriminate.
  - unfold search.
    destruct (initialTrialPoly _ _) as [f0 | e]; [| discriminate].
    destruct (PolyOrder_new f0) as [u1 | e]; [| discriminate].
    pose proof (trials_total parser fuel (mkTrial f0 0 0 false [])) as Ht.
    cbn [num_poly] in Ht.
    destruct (trials fuel parser _) as [[t | e] |]; try discriminate.
    + destruct (negb _ && negb _); discriminate.
    + exfalso. apply Ht; [lia | reflexivity].
Qed.

(** *** Where an error arises inside the [try] block *)

(** [loop_reaches parser j t0 t]: [j] passes after the loop body was
    entered in the state [t0], none of which left the loop or threw, it
    is entered in the state [t]. *)
Inductive loop_reaches (parser : PolyParser) : nat -> trial -> trial -> Prop :=
| reaches_first (t : trial) : loop_reaches parser 0 t t
| reaches_next (j : nat) (t t1 t2 : trial) :
    loop_body parser t = Ok (false, t1) ->
    loop_reaches parser j t1 t2 ->
    loop_reaches parser (S j) t t2.

(** The command line was parsed and asks for no help; moreover the
    self-check has passed; moreover the search has its first trial
    polynomial and its order tester. *)
Definition past_parser (parser : PolyParser) : Prop :=
  parseCommandLine = Ok parser /\ print_help_ parser = false.

Definition past_self_check (parser : PolyParser) : Prop :=
  past_parser parser /\ unitTest_run = Ok true.

Definition in_search (parser : PolyParser) (f0 : Polynomial) : Prop :=
  past_self_check parser /\
  test_polynomial_for_primitivity_ parser = false /\
  initialTrialPoly (n parser) (p parser) = Ok f0 /\
  PolyOrder_new f0 = Ok tt.

(** [thrown fuel e]: in a run of [main] whose search loop is given [fuel]
    re-entries, one of the calls or [throw] statements inside the [try]
    block, reached in the order of the code, throws an object of class
    [e].  The cases follow the text of the [try] block: the parser, the
    self-check (a failed run, a [UnitTestError], another error), the test
    of the given polynomial (tester construction, quick test, slow
    confirmation), the set-up of the search, a pass of the loop (quick
    test, slow confirmation, disagreement of the two) and the search for
    one polynomial that ends without one. *)
Inductive thrown (fuel : nat) : exception_class -> Prop :=
| thrown_by_parser (e : exception_class) :
    parseCommandLine = Throw e -> thrown fuel e
| thrown_self_check_fails (parser : PolyParser) :
    past_parser parser -> unitTest_run = Ok false ->
    thrown fuel PrimpolyError
| thrown_self_check_cannot_run (parser : PolyParser) (e : exception_class) :
    past_parser parser -> unitTest_run = Throw e ->
    is_a e UnitTestError = true ->
    thrown fuel PrimpolyError
| thrown_in_self_check (parser : PolyParser) (e : exception_class) :
    past_parser parser -> unitTest_run = Throw e ->
    is_a e UnitTestError = false ->
    thrown fuel e
| thrown_by_order_of_given (parser : PolyParser) (e : exception_class) :
    past_self_check parser ->
    test_polynomial_for_primitivity_ parser = true ->
    PolyOrder_new (test_polynomial_ parser) = Throw e ->
    thrown fuel e
| thrown_by_test_of_given (parser : PolyParser) (e : exception_class) :
    past_self_check parser ->
    test_polynomial_for_primitivity_ parser = true ->
    PolyOrder_new (test_polynomial_ parser) = Ok tt ->
    isPrimitive (test_polynomial_ parser) = Throw e ->
    thrown fuel e
| thrown_by_confirm_of_given (parser : PolyParser) (verdict : bool)
                             (e : exception_class) :
    past_self_check parser ->
    test_polynomial_for_primitivity_ parser = true ->
    PolyOrder_new (test_polynomial_ parser) = Ok tt ->
    isPrimitive (test_polynomial_ parser) = Ok verdict ->
    slow_confirm_ parser = true ->
    maximal_order (test_polynomial_ parser) = Throw e ->
    thrown fuel e
| thrown_by_initial_poly (parser : PolyParser) (e : exception_class) :
    past_self_check parser ->
    test_polynomial_for_primitivity_ parser = false ->
    initialTrialPoly (n parser) (p parser) = Throw e ->
    thrown fuel e
| thrown_by_order (parser : PolyParser) (f0 : Polynomial)
                  (e : exception_class) :
    past_self_check parser ->
    test_polynomial_for_primitivity_ parser = false ->
    initialTrialPoly (n parser) (p parser) = Ok f0 ->
    PolyOrder_new f0 = Throw e ->
    thrown fuel e
| thrown_by_tester (parser : PolyParser) (f0 : Polynomial) (j : nat)
                   (t : trial) (e : exception_class) :
    in_search parser f0 -> (j <= fuel)%nat ->
    loop_reaches parser j (first_trial f0) t ->
    isPrimitive (f t) = Throw e ->
    thrown fuel e
| thrown_by_confirm (parser : PolyParser) (f0 : Polynomial) (j : nat)
                    (t : trial) (e : exception_class) :
    in_search parser f0 -> (j <= fuel)%nat ->
    loop_reaches parser j (first_trial f0) t ->
    isPrimitive (f t) = Ok true ->
    slow_confirm_ parser = true ->
    maximal_order (f t) = Throw e ->
    thrown fuel e
| thrown_disagreement (parser : PolyParser) (f0 : Polynomial) (j : nat)
                      (t : trial) :
    in_search parser f0 -> (j <= fuel)%nat ->
    loop_reaches parser j (first_trial f0) t ->
    isPrimitive (f t) = Ok true ->
    slow_confirm_ parser = true ->
    maximal_order (f t) = Ok false ->
    thrown fuel PolynomialError
| thrown_none_found (parser : PolyParser) (f0 : Polynomial) (t : trial) :
    in_search parser f0 ->
    trials fuel parser (first_trial f0) = Some (Ok t) ->
    list_all_primitive_polynomials_ parser = false ->
    is_primitive_poly t = false ->
    thrown fuel PolynomialError.

(** What makes a pass of the loop throw. *)
Lemma loop_body_throws parser t e :
  loop_body parser t = Throw e <->
  isPrimitive (f t) = Throw e \/
  (isPrimitive (f t) = Ok true /\ slow_confirm_ parser = true /\
   (maximal_order (f t) = Throw e \/
    (maximal_order (f t) = Ok false /\ e = PolynomialError))).
Proof.
  unfold loop_body, confirm.
  destruct (isPrimitive (f t)) as [[|] | e0]; cbn [bind].
  - destruct (slow_confirm_ parser); cbn [bind].
    + destruct (maximal_order (f t)) as [[|] | e1]; cbn [bind fst snd andb].
      * split.
        -- destruct (_ >=? _); discriminate.
        -- intros [H | (_ & _ & [H | [H _]])]; discriminate.
      * split.
        -- intros H. injection H as <-. right. auto.
        -- intros [H | (_ & _ & [H | [_ ->]])];
             [discriminate | discriminate | reflexivity].
      * split.
        -- intros H. injection H as <-. right. auto.
        -- intros [H | (_ & _ & [H | [H _]])];
             [discriminate | injection H as <-; reflexivity | discriminate].
    + cbn [fst snd andb]. split.
      * destruct (_ >=? _); discriminate.
      * intros [H | (_ & H & _)]; discriminate.
  - cbn [fst snd andb]. split; [discriminate |].
    intros [H | (H & _)]; discriminate.
  - split.
    + intros H. injection H as <-. left. reflexivity.
    + intros [H | (H & _)]; [injection H as <-; reflexivity | discriminate].
Qed.

Lemma trials_throws parser (j : nat) (t0 t : trial) :
  loop_reaches parser j t0 t ->
  forall (fuel : nat) (e : exception_class),
    (j <= fuel)%nat -> loop_body parser t = Throw e ->
    trials fuel parser t0 = Some (Throw e).
Proof.
  induction 1 as [t | j t t1 t2 Hstep _ IH]; intros fuel e Hj Hthrow.
  - destruct fuel; cbn [trials]; rewrite Hthrow; reflexivity.
  - destruct fuel as [| fuel]; [lia |]. cbn [trials]. rewrite Hstep.
    apply IH; [lia | exact Hthrow].
Qed.

Lemma trials_throws_inv parser :
  forall (fuel : nat) (t0 : trial) (e : exception_class),
    trials fuel parser t0 = Some (Throw e) ->
    exists (j : nat) (t : trial),
      (j <= fuel)%nat /\ loop_reaches parser j t0 t /\
      loop_body parser t = Throw e.
Proof.
  induction fuel as [| fuel IH]; intros t0 e; cbn [trials];
    destruct (loop_body parser t0) as [[[|] t1] | e0] eqn:E;
    try discriminate.
  - intros H. injection H as <-. exists 0%nat, t0.
    split; [lia |]. split; [constructor | exact E].
  - intros H. apply IH in H. destruct H as (j & t & Hj & Hreach & Hthrow).
    exists (S j), t. split; [lia |].
    split; [econstructor; eassumption | exact Hthrow].
  - intros H. injection H as <-. exists 0%nat, t0.
    split; [lia |]. split; [constructor | exact E].
Qed.

(** Every error that arises inside the [try] block leaves it, and
    nothing else does. *)
Lemma thrown_iff (fuel : nat) (e : exception_class) :
  thrown fuel e <-> main_try fuel = Some (Throw e).
Proof.
  split.
  - intros H. unfold main_try.
    destruct H as
      [e He
      | parser [Hp Hh] Hu
      | parser e [Hp Hh] Hu Hisa
      | parser e [Hp Hh] Hu Hisa
      | parser e [[Hp Hh] Hu] Ht Ho
      | parser e [[Hp Hh] Hu] Ht Ho Hi
      | parser verdict e [[Hp Hh] Hu] Ht Ho Hi Hs Hm
      | parser e [[Hp Hh] Hu] Ht Hi
      | parser f0 e [[Hp Hh] Hu] Ht Hi Ho
      | parser f0 j t e ([[Hp Hh] Hu] & Ht & Hi & Ho) Hj Hreach Hprim
      | parser f0 j t e ([[Hp Hh] Hu] & Ht & Hi & Ho) Hj Hreach Hprim Hs Hm
      | parser f0 j t ([[Hp Hh] Hu] & Ht & Hi & Ho) Hj Hreach Hprim Hs Hm
      | parser f0 t ([[Hp Hh] Hu] & Ht & Hi & Ho) Hrun Hall Hlast ].
    + rewrite He. reflexivity.
    + rewrite Hp, Hh. unfold self_check. rewrite Hu. reflexivity.
    + rewrite Hp, Hh. unfold self_check. rewrite Hu, Hisa. reflexivity.
    + rewrite Hp, Hh. unfold self_check. rewrite Hu, Hisa. reflexivity.
    + rewrite Hp, Hh. unfold self_check. rewrite Hu, Ht.
      unfold test_given. rewrite Ho. reflexivity.
    + rewrite Hp, Hh. unfold self_check. rewrite Hu, Ht.
      unfold test_given. rewrite Ho, Hi. reflexivity.
    + rewrite Hp, Hh. unfold self_check. rewrite Hu, Ht.
      unfold test_given. rewrite Ho, Hi, Hs, Hm. reflexivity.
    + rewrite Hp, Hh. unfold self_check. rewrite Hu, Ht.
      unfold search. rewrite Hi. reflexivity.
    + rewrite Hp, Hh. unfold self_check. rewrite Hu, Ht.
      unfold search. rewrite Hi, Ho. reflexivity.
    + rewrite Hp, Hh. unfold self_check. rewrite Hu, Ht.
      unfold search. rewrite Hi, Ho. fold (first_trial f0).
      rewrite (trials_throws parser j (first_trial f0) t Hreach fuel e Hj);
        [reflexivity |].
      apply loop_body_throws. left. exact Hprim.
    + rewrite Hp, Hh. unfold self_check. rewrite Hu, Ht.
      unfold search. rewrite Hi, Ho. fold (first_trial f0).
      rewrite (trials_throws parser j (first_trial f0) t Hreach fuel e Hj);
        [reflexivity |].
      apply loop_body_throws. right. auto.
    + rewrite Hp, Hh. unfold self_check. rewrite Hu, Ht.
      unfold search. rewrite Hi, Ho. fold (first_trial f0).
      rewrite (trials_throws parser j (first_trial f0) t Hreach fuel
                 PolynomialError Hj);
        [reflexivity |].
      apply loop_body_throws. right. auto.
    + rewrite Hp, Hh. unfold self_check. rewrite Hu, Ht.
      unfold search. rewrite Hi, Ho. fold (first_trial f0).
      rewrite Hrun, Hall, Hlast. reflexivity.
  - unfold main_try.
    destruct parseCommandLine as [parser | e0] eqn:Hp.
    2:{ intros H. injection H as <-. apply thrown_by_parser. exact Hp. }
    destruct (print_help_ parser) eqn:Hh; [discriminate |].
    assert (Hpast : past_parser parser) by (split; assumption).
    unfold self_check.
    destruct unitTest_run as [[|] | e0] eqn:Hu.
    2:{ intros H. injection H as <-.
        exact (thrown_self_check_fails fuel parser Hpast Hu). }
    2:{ destruct (is_a e0 UnitTestError) eqn:Hisa;
          intros H; injection H as <-.
        - exact (thrown_self_check_cannot_run fuel parser e0 Hpast Hu Hisa).
        - exact (thrown_in_self_check fuel parser e0 Hpast Hu Hisa). }
    assert (Hchecked : past_self_check parser) by (split; assumption).
    destruct (test_polynomial_for_primitivity_ parser) eqn:Ht.
    + unfold test_given.
      destruct (PolyOrder_new (test_polynomial_ parser)) as [[] | e0] eqn:Ho;
        cbn [bind].
      2:{ intros H. injection H as <-.
          exact (thrown_by_order_of_given fuel parser e0 Hchecked Ht Ho). }
      destruct (isPrimitive (test_polynomial_ parser)) as [b | e0] eqn:Hi;
        cbn [bind].
      2:{ intros H. injection H as <-.
          exact (thrown_by_test_of_given fuel parser e0 Hchecked Ht Ho Hi). }
      destruct (slow_confirm_ parser) eqn:Hs; cbn [bind]; [| discriminate].
      destruct (maximal_order (test_polynomial_ parser)) as [b' | e0] eqn:Hm;
        cbn [bind]; [discriminate |].
      intros H. injection H as <-.
      exact (thrown_by_confirm_of_given fuel parser b e0 Hchecked Ht Ho Hi
               Hs Hm).
    + unfold search.
      destruct (initialTrialPoly (n parser) (p parser)) as [f0 | e0] eqn:Hi.
      2:{ intros H. injection H as <-.
          exact (thrown_by_initial_poly fuel parser e0 Hchecked Ht Hi). }
      destruct (PolyOrder_new f0) as [[] | e0] eqn:Ho.
      2:{ intros H. injection H as <-.
          exact (thrown_by_order fuel parser f0 e0 Hchecked Ht Hi Ho). }
      assert (Hsearch : in_search parser f0) by (repeat split; assumption).
      fold (first_trial f0).
      destruct (trials fuel parser (first_trial f0)) as [[t | e0] |] eqn:Hrun;
        [| | discriminate].
      * destruct (list_all_primitive_polynomials_ parser) eqn:Hall;
          cbn [negb andb]; [discriminate |].
        destruct (is_primitive_poly t) eqn:Hlast; cbn [negb];
          [discriminate |].
        intros H. injection H as <-.
        exact (thrown_none_found fuel parser f0 t Hsearch Hrun Hall Hlast).
      * intros H. injection H as <-.
        apply trials_throws_inv in Hrun.
        destruct Hrun as (j & t & Hj & Hreach & Hthrow).
        apply loop_body_throws in Hthrow.
        destruct Hthrow as [Hprim | (Hprim & Hs & [Hm | [Hm ->]])].
        -- exact (thrown_by_tester fuel parser f0 j t e0 Hsearch Hj Hreach
                    Hprim).
        -- exact (thrown_by_confirm fuel parser f0 j t e0 Hsearch Hj Hreach
                    Hprim Hs Hm).
        -- exact (thrown_disagreement fuel parser f0 j t Hsearch Hj Hreach
                    Hprim Hs Hm).
Qed.

(** C8: [main] returns (with fuel for [getMaxNumPoly] passes of the
    search), and what it returns is one of [Success] (0), [AskForHelp]
    (1), [RangeError] (3), [InternalError] (4), all among the five
    statuses 0 to 4: 1 for a help request, 0 for any other normal
    completion, 3 when a [ParserError] or [PolynomialRangeError] leaves
    the [try] block and 4 for every other thrown object.  Every error
    that arises inside the [try] block (in the parser, the self-check,
    the tester, the slow confirmation, the set-up of the search, or by a
    [throw] of [main] itself) leaves it and decides the status in this
    way, nothing is swallowed; and a run in which no error arises and no
    help is asked for returns [Success]. *)
Theorem main_exit_status :
  (forall fuel, (Z.to_nat getMaxNumPoly <= fuel)%nat ->
     exists st, main fuel = Some st) /\
  (forall fuel st, main fuel = Some st ->
     In st [Success; AskForHelp; RangeError; InternalError] /\
     In (status_code st) [0; 1; 2; 3; 4]) /\
  (forall fuel parser,
     parseCommandLine = Ok parser -> print_help_ parser = true ->
     main fuel = Some AskForHelp /\ status_code AskForHelp = 1) /\
  (forall fuel parser st,
     parseCommandLine = Ok parser -> print_help_ parser = false ->
     main_try fuel = Some (Ok st) ->
     main fuel = Some Success /\ status_code Success = 0) /\
  (forall fuel e,
     main_try fuel = Some (Throw e) ->
     (e = ParserError \/ e = PolynomialRangeError ->
      main fuel = Some RangeError /\ status_code RangeError = 3) /\
     (e <> ParserError -> e <> PolynomialRangeError ->
      main fuel = Some InternalError /\ status_code InternalError = 4)) /\
  (forall fuel e, thrown fuel e <-> main_try fuel = Some (Throw e)) /\
  (forall fuel e,
     thrown fuel e ->
     main fuel
     = Some (if same_class e ParserError || same_class e PolynomialRangeError
             then RangeError else InternalError)) /\
  (forall fuel parser,
     (Z.to_nat getMaxNumPoly <= fuel)%nat ->
     parseCommandLine = Ok parser -> print_help_ parser = false ->
     (forall e, ~ thrown fuel e) ->
     main_try fuel = Some (Ok Success) /\ main fuel = Some Success).
Proof.
  split.
  { intros fuel Hfuel. pose proof (main_returns fuel Hfuel) as Hr.
    destruct (main fuel) as [st |]; [exists st; reflexivity | contradiction]. }
  split.
  { intros fuel st. unfold main.
    destruct (main_try fuel) as [[st0 | e] |] eqn:E; [| | discriminate].
    - intros H; injection H as <-. apply main_try_normal in E.
      destruct parseCommandLine as [parser |]; [| contradiction].
      subst st0. destruct (print_help_ parser); cbn; tauto.
    - rewrite dispatch_handlers.
      destruct (same_class e ParserError || same_class e PolynomialRangeError);
        intros H; injection H as <-; cbn; tauto. }
  split.
  { intros fuel parser Hparse Hhelp. unfold main, main_try.
    rewrite Hparse, Hhelp. split; reflexivity. }
  split.
  { intros fuel parser st Hparse Hhelp Htry. unfold main. rewrite Htry.
    apply main_try_normal in Htry. rewrite Hparse, Hhelp in Htry.
    subst st. split; reflexivity. }
  split.
  { intros fuel e Htry. unfold main. rewrite Htry, dispatch_handlers. split.
    - intros [-> | ->]; split; reflexivity.
    - intros H1 H2. destruct e; try contradiction; split; reflexivity. }
  split; [exact thrown_iff |].
  split.
  { intros fuel e Hthrown. apply thrown_iff in Hthrown.
    unfold main. rewrite Hthrown, dispatch_handlers. reflexivity. }
  intros fuel parser Hfuel Hparse Hhelp Hnone.
  pose proof (main_returns fuel Hfuel) as Hr. unfold main in *.
  destruct (main_try fuel) as [[st | e] |] eqn:E.
  - pose proof (main_try_normal fuel st E) as Hst.
    rewrite Hparse, Hhelp in Hst. subst st. split; reflexivity.
  - exfalso. apply (Hnone e). apply thrown_iff. exact E.
  - contradiction.
Qed.

(** *** What the search keeps for every tester *)

Ltac split_all := repeat match goal with |- _ /\ _ => split end.

Definition found_primitive (g : Polynomial) : Prop := isPrimitive g = Ok true.

(** The locals at the head of the loop body. *)
Definition at_loop_head (parser : PolyParser) (t : trial) : Prop :=
  0 <= num_poly t /\
  (num_poly t = 0 \/ num_poly t < getMaxNumPoly) /\
  num_primitive_poly t = Z.of_nat (length (reported t)) /\
  (num_primitive_poly t = 0 \/ num_primitive_poly t < getNumPrimPoly) /\
  num_primitive_poly t <= num_poly t /\
  Forall found_primitive (reported t) /\
  (list_all_primitive_polynomials_ parser = false -> reported t = []).

(** The locals once the loop is left. *)
Definition after_loop (parser : PolyParser) (t : trial) : Prop :=
  1 <= num_poly t <= Z.max 1 getMaxNumPoly /\
  num_primitive_poly t = Z.of_nat (length (reported t)) /\
  num_primitive_poly t <= Z.max 1 getNumPrimPoly /\
  num_primitive_poly t <= num_poly t /\
  Forall found_primitive (reported t) /\
  (list_all_primitive_polynomials_ parser = false ->
   length (reported t) = if is_primitive_poly t then 1%nat else 0%nat).

Lemma first_trial_at_loop_head parser f0 : at_loop_head parser (first_trial f0).
Proof.
  unfold at_loop_head, first_trial.
  cbn [num_poly num_primitive_poly reported length].
  split_all; try lia; [constructor | reflexivity].
Qed.

Lemma loop_body_keeps parser t b t' :
  at_loop_head parser t ->
  loop_body parser t = Ok (b, t') ->
  if b then after_loop parser t' else at_loop_head parser t'.
Proof.
  intros (H0 & Hmax & Hlen & Hnum & Hle & Hall & Hone). unfold loop_body.
  destruct (isPrimitive (f t)) as [prim | e] eqn:Eprim; cbn [bind];
    [| discriminate].
  destruct prim.
  - destruct (confirm (slow_confirm_ parser) (f t)) as [u | e];
      cbn [bind fst snd andb]; [| discriminate].
    assert (Hall' : Forall found_primitive (reported t ++ [f t])).
    { apply Forall_app. split; [exact Hall |].
      constructor; [exact Eprim | constructor]. }
    assert (Hlen' : num_primitive_poly t + 1
                    = Z.of_nat (length (reported t ++ [f t]))).
    { rewrite length_app. cbn [length]. lia. }
    assert (Hone' : list_all_primitive_polynomials_ parser = false ->
                    length (reported t ++ [f t]) = 1%nat).
    { intros Hl. rewrite (Hone Hl). reflexivity. }
    destruct (Z.geb_spec (num_primitive_poly t + 1) getNumPrimPoly)
      as [Hg | Hg].
    + intros Heq. injection Heq as <- <-. unfold after_loop.
      cbn [num_poly num_primitive_poly reported is_primitive_poly].
      split_all; try lia; assumption.
    + destruct (Z.geb_spec (num_poly t + 1) getMaxNumPoly) as [Hm | Hm];
        cbn [orb].
      * intros Heq. injection Heq as <- <-. unfold after_loop.
        cbn [num_poly num_primitive_poly reported is_primitive_poly].
        split_all; try lia; assumption.
      * destruct (list_all_primitive_polynomials_ parser) eqn:El;
          cbn [negb andb]; intros Heq; injection Heq as <- <-.
        -- unfold at_loop_head.
           cbn [num_poly num_primitive_poly reported is_primitive_poly].
           split_all; try lia; try assumption.
           rewrite El. discriminate.
        -- unfold after_loop.
           cbn [num_poly num_primitive_poly reported is_primitive_poly].
           split_all; try lia; assumption.
  - cbn [bind fst snd andb]. rewrite andb_false_r, orb_false_r.
    destruct (Z.geb_spec (num_poly t + 1) getMaxNumPoly) as [Hm | Hm];
      intros Heq; injection Heq as <- <-.
    + unfold after_loop.
      cbn [num_poly num_primitive_poly reported is_primitive_poly].
      split_all; try lia; try assumption.
      intros Hl. rewrite (Hone Hl). reflexivity.
    + unfold at_loop_head.
      cbn [num_poly num_primitive_poly reported is_primitive_poly].
      split_all; try lia; assumption.
Qed.

Lemma trials_keeps parser :
  forall (fuel : nat) (t t' : trial),
    at_loop_head parser t ->
    trials fuel parser t = Some (Ok t') -> after_loop parser t'.
Proof.
  induction fuel as [| fuel IH]; intros t t' Ht; cbn [trials];
    destruct (loop_body parser t) as [[[|] t1] | e] eqn:E;
    try discriminate.
  - intros H. injection H as <-. exact (loop_body_keeps parser t true t1 Ht E).
  - intros H. injection H as <-. exact (loop_body_keeps parser t true t1 Ht E).
  - apply IH. exact (loop_body_keeps parser t false t1 Ht E).
Qed.

(** X12: whatever the tester answers, a search loop that ends without an
    exception has tested at least one and at most max(1, getMaxNumPoly)
    polynomials and has written out at most max(1, getNumPrimPoly) of
    them; [num_primitive_poly] is the number written out, every one of
    them was accepted by the tester, and in find-one mode exactly one was
    written out when the last verdict is "primitive" and none otherwise. *)
Theorem search_bounds (parser : PolyParser) (f0 : Polynomial)
    (fuel : nat) (t : trial) :
  trials fuel parser (first_trial f0) = Some (Ok t) ->
  1 <= num_poly t <= Z.max 1 getMaxNumPoly /\
  num_primitive_poly t = Z.of_nat (length (reported t)) /\
  num_primitive_poly t <= Z.max 1 getNumPrimPoly /\
  num_primitive_poly t <= num_poly t /\
  Forall (fun g => isPrimitive g = Ok true) (reported t) /\
  (list_all_primitive_polynomials_ parser = false ->
   length (reported t) = if is_primitive_poly t then 1%nat else 0%nat).
Proof.
  intros H.
  exact (trials_keeps parser fuel (first_trial f0) t
           (first_trial_at_loop_head parser f0) H).
Qed.

(** *** Runs in which the first polynomials are rejected *)

Lemma at_pass_none_accepted f0 (j : nat) :
  at_pass f0 (fun _ => false) j = mkTrial (candidate f0 j) (Z.of_nat j) 0 false [].
Proof.
  assert (Hacc : forall i, accepted f0 (fun _ => false) i = []).
  { induction i as [| i IH]; [reflexivity |]. cbn [accepted]. rewrite IH.
    reflexivity. }
  unfold at_pass, count_accepted. rewrite Hacc.
  destruct j; reflexivity.
Qed.

(** The passes over rejected polynomials, as long as there are more to
    try, are run through in both modes. *)
Lemma trials_skip_rejected parser f0 (k fuel : nat) :
  (forall i, (i < k)%nat -> isPrimitive (candidate f0 i) = Ok false) ->
  Z.of_nat k < Z.max 1 getMaxNumPoly ->
  trials (k + fuel) parser (first_trial f0)
  = trials fuel parser (mkTrial (candidate f0 k) (Z.of_nat k) 0 false []).
Proof.
  intros Hno Hk. rewrite <- (at_pass_0 f0 (fun _ => false)).
  rewrite trials_continue.
  - rewrite Nat.add_0_l, at_pass_none_accepted. reflexivity.
  - intros i Hi.
    rewrite (loop_body_at_pass parser f0 (fun _ => false) i).
    + cbn [andb]. rewrite andb_false_r, orb_false_r.
      destruct (Z.geb_spec (Z.of_nat (S i)) getMaxNumPoly); [lia | reflexivity].
    + apply Hno. lia.
    + discriminate.
Qed.

(** [main] when the search loop is reached and ends in [r]. *)
Lemma main_of_search parser f0 (fuel : nat) (r : result trial) :
  parseCommandLine = Ok parser ->
  print_help_ parser = false ->
  unitTest_run = Ok true ->
  test_polynomial_for_primitivity_ parser = false ->
  initialTrialPoly (n parser) (p parser) = Ok f0 ->
  PolyOrder_new f0 = Ok tt ->
  trials fuel parser (first_trial f0) = Some r ->
  main fuel
  = Some match r with
         | Ok t => if negb (list_all_primitive_polynomials_ parser)
                      && negb (is_primitive_poly t)
                   then InternalError else Success
         | Throw e => dispatch handlers e
         end.
Proof.
  intros Hparse Hhelp Hunit Htest Hinit Horder Hrun.
  unfold main, main_try. rewrite Hparse, Hhelp. unfold self_check.
  rewrite Hunit, Htest. unfold search. rewrite Hinit, Horder.
  fold (first_trial f0). rewrite Hrun.
  destruct r as [t | e]; [| reflexivity].
  destruct (negb _ && negb _); reflexivity.
Qed.

(** X13: in find-one mode the search stops at the first trial polynomial
    that the tester accepts (and the slow confirmation, when asked for,
    confirms): it is the only polynomial written out, no polynomial after
    it is tested, and [main] returns [Success]. *)
Theorem find_one_stops_at_first_accepted
    (parser : PolyParser) (f0 : Polynomial) (k fuel : nat) :
  list_all_primitive_polynomials_ parser = false ->
  (forall i, (i < k)%nat -> isPrimitive (candidate f0 i) = Ok false) ->
  isPrimitive (candidate f0 k) = Ok true ->
  confirm (slow_confirm_ parser) (candidate f0 k) = Ok tt ->
  Z.of_nat k < Z.max 1 getMaxNumPoly ->
  (k <= fuel)%nat ->
  exists t : trial,
    trials fuel parser (first_trial f0) = Some (Ok t) /\
    reported t = [candidate f0 k] /\
    num_poly t = Z.of_nat k + 1 /\
    num_primitive_poly t = 1 /\
    is_primitive_poly t = true /\
    (parseCommandLine = Ok parser ->
     print_help_ parser = false ->
     unitTest_run = Ok true ->
     test_polynomial_for_primitivity_ parser = false ->
     initialTrialPoly (n parser) (p parser) = Ok f0 ->
     PolyOrder_new f0 = Ok tt ->
     main fuel = Some Success).
Proof.
  intros Hall Hno Hprim Hconf Hk Hfuel.
  assert (Hrun : exists g,
            trials fuel parser (first_trial f0)
            = Some (Ok (mkTrial g (Z.of_nat k + 1) 1 true [candidate f0 k]))).
  { replace fuel with (k + (fuel - k))%nat by lia.
    rewrite (trials_skip_rejected parser f0 k (fuel - k) Hno Hk).
    assert (Hbody : exists g,
              loop_body parser (mkTrial (candidate f0 k) (Z.of_nat k) 0 false [])
              = Ok (true, mkTrial g (Z.of_nat k + 1) 1 true [candidate f0 k])).
    { unfold loop_body. cbn [f num_poly num_primitive_poly reported].
      rewrite Hprim. cbn [bind]. rewrite Hconf. cbn [bind fst snd andb app].
      rewrite Hall. cbn [negb andb]. rewrite orb_true_r.
      destruct (0 + 1 >=? getNumPrimPoly); eexists; reflexivity. }
    destruct Hbody as (g & Hbody). exists g.
    destruct (fuel - k)%nat; cbn [trials]; rewrite Hbody; reflexivity. }
  destruct Hrun as (g & Hrun). eexists. split; [exact Hrun |].
  cbn [reported num_poly num_primitive_poly is_primitive_poly].
  split_all; try reflexivity.
  intros Hparse Hhelp Hunit Htest Hinit Horder.
  rewrite (main_of_search parser f0 fuel _ Hparse Hhelp Hunit Htest Hinit
             Horder Hrun).
  cbn [is_primitive_poly negb]. rewrite andb_false_r. reflexivity.
Qed.

(** X14: in find-all mode, when the tester accepts fewer polynomials than
    [getNumPrimPoly] among all the trial polynomials, the search tests
    every one of them, writes out the accepted ones and [main] still
    returns [Success]: find-all never reports a shortfall, not even when
    nothing was found. *)
Theorem find_all_shortfall_is_success
    (parser : PolyParser) (f0 : Polynomial) (verdict : nat -> bool)
    (fuel : nat) :
  list_all_primitive_polynomials_ parser = true ->
  (forall i, (i < Nat.max 1 (Z.to_nat getMaxNumPoly))%nat ->
             isPrimitive (candidate f0 i) = Ok (verdict i)) ->
  (forall i, (i < Nat.max 1 (Z.to_nat getMaxNumPoly))%nat ->
             verdict i = true ->
             confirm (slow_confirm_ parser) (candidate f0 i) = Ok tt) ->
  count_accepted f0 verdict (Nat.max 1 (Z.to_nat getMaxNumPoly))
  < getNumPrimPoly ->
  (Z.to_nat getMaxNumPoly <= fuel)%nat ->
  exists t : trial,
    trials fuel parser (first_trial f0) = Some (Ok t) /\
    num_poly t = Z.max 1 getMaxNumPoly /\
    reported t = accepted f0 verdict (Nat.max 1 (Z.to_nat getMaxNumPoly)) /\
    (parseCommandLine = Ok parser ->
     print_help_ parser = false ->
     unitTest_run = Ok true ->
     test_polynomial_for_primitivity_ parser = false ->
     initialTrialPoly (n parser) (p parser) = Ok f0 ->
     PolyOrder_new f0 = Ok tt ->
     main fuel = Some Success).
Proof.
  intros Hall Hv Hc Hshort Hfuel.
  remember (Nat.max 1 (Z.to_nat getMaxNumPoly)) as m eqn:Em.
  destruct m as [| d]; [lia |].
  assert (Hbody : forall i, (i <= d)%nat ->
            loop_body parser (at_pass f0 verdict i)
            = Ok (Z.of_nat (S i) >=? getMaxNumPoly, at_pass f0 verdict (S i))).
  { intros i Hi.
    rewrite (loop_body_at_pass parser f0 verdict i).
    - pose proof (count_accepted_mono f0 verdict (S i) (S d) ltac:(lia)) as Hm.
      destruct (Z.geb_spec (count_accepted f0 verdict (S i)) getNumPrimPoly);
        [lia |].
      rewrite andb_false_r, Hall. cbn [negb andb]. rewrite orb_false_r.
      reflexivity.
    - apply Hv. lia.
    - apply Hc. lia. }
  assert (Hrun : trials fuel parser (first_trial f0)
                 = Some (Ok (at_pass f0 verdict (S d)))).
  { rewrite <- (at_pass_0 f0 verdict).
    replace fuel with (d + (fuel - d))%nat by lia.
    rewrite trials_continue.
    - rewrite Nat.add_0_l.
      assert (Hlast : (Z.of_nat (S d) >=? getMaxNumPoly) = true).
      { destruct (Z.geb_spec (Z.of_nat (S d)) getMaxNumPoly);
          [reflexivity | lia]. }
      destruct (fuel - d)%nat; cbn [trials];
        rewrite (Hbody d) by lia; rewrite Hlast; reflexivity.
    - intros i Hi. rewrite (Hbody i) by lia.
      destruct (Z.geb_spec (Z.of_nat (S i)) getMaxNumPoly);
        [lia | reflexivity]. }
  exists (at_pass f0 verdict (S d)). split; [exact Hrun |].
  unfold at_pass at 1 2. cbn [num_poly reported].
  split; [lia |]. split; [reflexivity |].
  intros Hparse Hhelp Hunit Htest Hinit Horder.
  rewrite (main_of_search parser f0 fuel _ Hparse Hhelp Hunit Htest Hinit
             Horder Hrun).
  rewrite Hall. reflexivity.
Qed.

(** X15: when the slow confirmation is asked for and contradicts the
    tester on the first accepted trial polynomial, the search ends there
    with a [PolynomialError], in find-one and in find-all mode alike, and
    [main] returns [InternalError]. *)
Theorem slow_confirm_disagreement_is_internal_error
    (parser : PolyParser) (f0 : Polynomial) (k fuel : nat) :
  slow_confirm_ parser = true ->
  (forall i, (i < k)%nat -> isPrimitive (candidate f0 i) = Ok false) ->
  isPrimitive (candidate f0 k) = Ok true ->
  maximal_order (candidate f0 k) = Ok false ->
  Z.of_nat k < Z.max 1 getMaxNumPoly ->
  (k <= fuel)%nat ->
  trials fuel parser (first_trial f0) = Some (Throw PolynomialError) /\
  (parseCommandLine = Ok parser ->
   print_help_ parser = false ->
   unitTest_run = Ok true ->
   test_polynomial_for_primitivity_ parser = false ->
   initialTrialPoly (n parser) (p parser) = Ok f0 ->
   PolyOrder_new f0 = Ok tt ->
   main fuel = Some InternalError).
Proof.
  intros Hslow Hno Hprim Hmax Hk Hfuel.
  assert (Hrun : trials fuel parser (first_trial f0)
                 = Some (Throw PolynomialError)).
  { replace fuel with (k + (fuel - k))%nat by lia.
    rewrite (trials_skip_rejected parser f0 k (fuel - k) Hno Hk).
    assert (Hbody :
              loop_body parser (mkTrial (candidate f0 k) (Z.of_nat k) 0 false [])
              = Throw PolynomialError).
    { unfold loop_body, confirm. cbn [f num_poly num_primitive_poly reported].
      rewrite Hprim, Hslow. cbn [bind]. rewrite Hmax. reflexivity. }
    destruct (fuel - k)%nat; cbn [trials]; rewrite Hbody; reflexivity. }
  split; [exact Hrun |].
  intros Hparse Hhelp Hunit Htest Hinit Horder.
  rewrite (main_of_search parser f0 fuel _ Hparse Hhelp Hunit Htest Hinit
             Horder Hrun).
  reflexivity.
Qed.

(** X16: testing a polynomial given by the user ends in [Success]
    whatever the tester finds, also for a polynomial that is not
    primitive and also when the slow confirmation contradicts the tester;
    the status tells the verdict in no way, and no trial polynomial is
    generated. *)
Theorem test_given_is_success_for_any_verdict
    (parser : PolyParser) (fuel : nat) (verdict confirmed : bool) :
  parseCommandLine = Ok parser ->
  print_help_ parser = false ->
  unitTest_run = Ok true ->
  test_polynomial_for_primitivity_ parser = true ->
  PolyOrder_new (test_polynomial_ parser) = Ok tt ->
  isPrimitive (test_polynomial_ parser) = Ok verdict ->
  maximal_order (test_polynomial_ parser) = Ok confirmed ->
  main fuel = Some Success.
Proof.
  intros Hparse Hhelp Hunit Htest Horder Hprim Hmax.
  unfold main, main_try. rewrite Hparse, Hhelp. unfold self_check.
  rewrite Hunit, Htest. unfold test_given.
  rewrite Horder, Hprim. cbn [bind].
  destruct (slow_confirm_ parser); [rewrite Hmax |]; reflexivity.
Qed.

(** X17: when no help is asked for, a self-check that fails, or that
    cannot be run and throws a [UnitTestError], makes [main] return
    [InternalError] in every mode, before any polynomial is looked at. *)
Theorem failed_self_check_is_internal_error
    (parser : PolyParser) (fuel : nat) :
  parseCommandLine = Ok parser ->
  print_help_ parser = false ->
  unitTest_run = Ok false \/ unitTest_run = Throw UnitTestError ->
  main_try fuel = Some (Throw PrimpolyError) /\
  main fuel = Some InternalError.
Proof.
  intros Hparse Hhelp Hunit.
  assert (Htry : main_try fuel = Some (Throw PrimpolyError)).
  { unfold main_try. rewrite Hparse, Hhelp. unfold self_check.
    destruct Hunit as [-> | ->]; reflexivity. }
  split; [exact Htry |]. unfold main. rewrite Htry. reflexivity.
Qed.

End Driver.

(** *** The order of the handlers *)

(** The first handler, in textual order, that accepts an object of class
    [e]. *)
Definition first_handler (e : exception_class)
  : option (exception_class * ReturnStatus) :=
  find (fun h => is_a e (fst h)) handlers.

Lemma dispatch_find (hs : list (exception_class * ReturnStatus)) e :
  dispatch hs e
  = match find (fun h => is_a e (fst h)) hs with
    | Some (_, st) => st
    | None => InternalError
    end.
Proof.
  induction hs as [| [h st] hs IH]; [reflexivity |].
  cbn [dispatch find fst]. destruct (is_a e h); [reflexivity | exact IH].
Qed.

(** X18: no handler of [main] is shadowed by an earlier one: an object
    whose class is that of a handler is caught by that very handler (the
    special errors are listed before the general ones).  What [main]
    returns for a thrown object is the status of the first handler that
    accepts it, and the closing [catch( ... )] is reached only by objects
    that are not derived from [std::exception]. *)
Theorem handlers_not_shadowed :
  (forall h st, In (h, st) handlers -> first_handler h = Some (h, st)) /\
  (forall e, dispatch handlers e
             = match first_handler e with
               | Some (_, st) => st
               | None => InternalError
               end) /\
  (forall e, first_handler e = None <-> e = foreign_object).
Proof.
  split; [| split].
  - intros h st Hin. unfold handlers in Hin. cbn [In] in Hin.
    repeat (destruct Hin as [Hin | Hin];
            [injection Hin as <- <-; reflexivity |]).
    contradiction.
  - intros e. apply dispatch_find.
  - intros e. split.
    + destruct e; try discriminate. reflexivity.
    + intros ->. reflexivity.
Qed.

End Primpoly.

(** ** Trial polynomials (PolyModP) *)

Module Polynomial.

(** A polynomial modulo [modulus]: the dense coefficient vector
    a_0, a_1, ..., a_n, lowest degree first. *)
Record Polynomial : Type := mkPolynomial {
  coeffs : list Z;
  modulus : Z
}.

Definition deg (g : Polynomial) : nat := Nat.pred (length (coeffs g)).

(** Monic of degree [n] with all coefficients in [0, p). *)
Definition monic_of_degree (n : nat) (p : Z) (g : Polynomial) : Prop :=
  modulus g = p /\
  exists low : list Z,
    coeffs g = low ++ [1] /\ length low = n /\
    Forall (fun a => 0 <= a < p) low.

(** Modelled from the spec: [Polynomial::initialTrialPoly], whose code is
    in ppPolynomial.cpp, a file that is not at hand.  The polynomial
    x^n - 1: a_0 = p - 1, a_1 ... a_(n-1) = 0, a_n = 1. *)
Definition initialTrialPoly (n : nat) (p : Z) : Polynomial :=
  match n with
  | O => mkPolynomial [1] p
  | S n' => mkPolynomial ((p - 1) :: repeat 0 n' ++ [1]) p
  end.

(** Modelled from the spec: the odometer step of
    [Polynomial::nextTrialPoly] (ppPolynomial.cpp, not at hand) on the
    digits a_0 ... a_(n-1): add one to the least significant digit and
    carry on overflow; the boolean is the carry out of the last digit. *)
Fixpoint increment (p : Z) (digits : list Z) : list Z * bool :=
  match digits with
  | [] => ([], true)
  | a :: rest =>
    if a + 1 <? p then ((a + 1) :: rest, false)
    else let (rest', carry) := increment p rest in (0 :: rest', carry)
  end.

(** Modelled from the spec: [Polynomial::nextTrialPoly] (ppPolynomial.cpp,
    not at hand).  The odometer runs over a_0 ... a_(n-1) with a_n fixed
    at 1; when it wraps, the result is x^(n+1), which is outside the set
    of polynomials of degree n and signals exhaustion. *)
Definition nextTrialPoly (g : Polynomial) : Polynomial :=
  let n := deg g in
  let (low, carry) := increment (modulus g) (firstn n (coeffs g)) in
  if carry then mkPolynomial (repeat 0 (S n) ++ [1]) (modulus g)
  else mkPolynomial (low ++ [1]) (modulus g).

(** The number that the digits a_0 ... a_(n-1) spell in base [p]. *)
Fixpoint value (p : Z) (digits : list Z) : Z :=
  match digits with
  | [] => 0
  | a :: rest => a + p * value p rest
  end.

(** The [k]-th polynomial of the enumeration for degree [n] modulo [p]. *)
Fixpoint trial_poly (n : nat) (p : Z) (k : nat) : Polynomial :=
  match k with
  | O => initialTrialPoly n p
  | S k' => nextTrialPoly (trial_poly n p k')
  end.

(** Modelled from the spec: the product x g(x) modulo f(x) and p
    ([timesX], ppPolynomial.cpp, not at hand), for f monic with low
    coefficients [low] = a_0 ... a_(n-1) and g given by its n coefficients:
    the coefficients are shifted up and the new x^n term is replaced by
    -(a_(n-1) x^(n-1) + ... + a_0). *)
Definition times_x (p : Z) (low g : list Z) : list Z :=
  let c := last g 0 in
  map (fun sa => (fst sa - c * snd sa) mod p) (combine (0 :: removelast g) low).

(** The residue of x^k for k = [k], [k + 1], ...: [true] when the first of
    them that equals 1 is x^[top]. *)
Fixpoint first_one_at (fuel : nat) (p : Z) (low one g : list Z) (k top : Z)
  : bool :=
  if list_eq_dec Z.eq_dec g one then k =? top
  else match fuel with
       | O => false
       | S fuel' => first_one_at fuel' p low one (times_x p low g) (k + 1) top
       end.

(** Modelled from the spec: the brute-force order computation of
    [PolyOrder::maximal_order] (ppPolynomial.cpp, not at hand), which
    multiplies x by itself up to p^n - 1 times modulo f and p: [true]
    when the least k >= 1 with x^k = 1 is p^n - 1. *)
Definition maximal_order (g : Polynomial) : bool :=
  let n := deg g in
  let p := modulus g in
  let low := firstn n (coeffs g) in
  let one := map (fun a => a mod p) (1 :: repeat 0 (Nat.pred n)) in
  let top := p ^ Z.of_nat n - 1 in
  first_one_at (Z.to_nat top) p low one (times_x p low one) 1 top.

Definition in_range (p : Z) (digits : list Z) : Prop :=
  Forall (fun a => 0 <= a < p) digits.

Lemma value_bounds p digits :
  0 < p -> in_range p digits ->
  0 <= value p digits < p ^ Z.of_nat (length digits).
Proof.
  intros Hp. induction 1 as [| a rest Ha _ IH]; cbn [value length].
  - cbn. lia.
  - rewrite Nat2Z.inj_succ, Z.pow_succ_r by lia. nia.
Qed.

Lemma value_injective p :
  0 < p ->
  forall d1 d2 : list Z,
    length d1 = length d2 -> in_range p d1 -> in_range p d2 ->
    value p d1 = value p d2 -> d1 = d2.
Proof.
  intros Hp. induction d1 as [| a1 r1 IH]; intros [| a2 r2] Hlen H1 H2 Hv;
    cbn [length] in Hlen; try discriminate; [reflexivity |].
  inversion H1 as [| ? ? Ha1 Hr1]; subst.
  inversion H2 as [| ? ? Ha2 Hr2]; subst.
  cbn [value] in Hv.
  assert (a1 = a2).
  { assert (Hm : (a1 + p * value p r1) mod p = (a2 + p * value p r2) mod p)
      by (rewrite Hv; reflexivity).
    rewrite !(Z.mul_comm p), !Z.mod_add, !Z.mod_small in Hm by lia.
    exact Hm. }
  subst a2. f_equal. apply IH; auto. nia.
Qed.

(** One step of the odometer adds one to the number spelt by the digits;
    the carry comes out exactly when the digits were all [p - 1]. *)
Lemma increment_value p :
  1 < p ->
  forall digits : list Z,
    in_range p digits ->
    length (fst (increment p digits)) = length digits /\
    in_range p (fst (increment p digits)) /\
    value p (fst (increment p digits))
    + (if snd (increment p digits) then p ^ Z.of_nat (length digits) else 0)
    = value p digits + 1.
Proof.
  intros Hp. induction 1 as [| a rest Ha Hrest IH]; cbn [increment].
  - cbn [fst snd length value].
    split; [reflexivity |]. split; [constructor |]. cbn. lia.
  - destruct (Z.ltb_spec (a + 1) p) as [Hlt | Hge].
    + cbn [fst snd length value].
      split; [reflexivity |]. split; [| lia].
      constructor; [lia | exact Hrest].
    + destruct (increment p rest) as [rest' carry].
      cbn [fst snd length value] in *. destruct IH as (Hlen & Hr & Hv).
      split; [lia |]. split; [constructor; [lia | exact Hr] |].
      rewrite Nat2Z.inj_succ, Z.pow_succ_r by lia.
      destruct carry; nia.
Qed.

Lemma value_zeros p m : value p (repeat 0 m) = 0.
Proof. induction m as [| m IH]; cbn [repeat value]; [reflexivity | lia]. Qed.

Lemma in_range_zeros p m : 0 < p -> in_range p (repeat 0 m).
Proof.
  intros Hp. induction m as [| m IH]; cbn [repeat]; constructor; [lia | exact IH].
Qed.

Lemma firstn_low (low : list Z) (a : Z) :
  firstn (Nat.pred (length (low ++ [a]))) (low ++ [a]) = low.
Proof.
  rewrite length_app. cbn [length]. rewrite Nat.add_1_r. cbn [Nat.pred].
  rewrite firstn_app, Nat.sub_diag, firstn_all. cbn [firstn].
  apply app_nil_r.
Qed.

(** The shape of the [k]-th trial polynomial as long as the odometer has
    not wrapped: monic of degree [n], its digits spelling [p - 1 + k]. *)
Lemma trial_poly_digits (n : nat) (p : Z) :
  (1 <= n)%nat -> 1 < p ->
  forall k : nat,
    Z.of_nat k <= p ^ Z.of_nat n - p ->
    exists low : list Z,
      trial_poly n p k = mkPolynomial (low ++ [1]) p /\
      length low = n /\ in_range p low /\
      value p low = p - 1 + Z.of_nat k.
Proof.
  intros Hn Hp. induction k as [| k IH]; intros Hk.
  - destruct n as [| n']; [lia |].
    exists ((p - 1) :: repeat 0 n'). cbn [trial_poly initialTrialPoly].
    split; [reflexivity |]. split; [cbn [length]; rewrite repeat_length; lia |].
    split.
    + constructor; [lia | apply in_range_zeros; lia].
    + cbn [value]. rewrite value_zeros. lia.
  - destruct IH as (low & Hshape & Hlen & Hr & Hv); [lia |].
    cbn [trial_poly]. rewrite Hshape.
    unfold nextTrialPoly, deg. cbn [coeffs modulus]. rewrite firstn_low.
    pose proof (increment_value p Hp low Hr) as (Hlen' & Hr' & Hv').
    destruct (increment p low) as [low' carry]. cbn [fst snd] in *.
    pose proof (value_bounds p low' ltac:(lia) Hr') as Hb.
    rewrite Hlen', Hlen in Hb.
    destruct carry.
    + rewrite Hlen in Hv'. lia.
    + exists low'. split; [reflexivity |]. split; [lia |]. split; [exact Hr' |].
      lia.
Qed.

(** C6: for n >= 2 and a modulus p >= 2 the enumeration starts at
    x^n - 1 (a_0 = p - 1, a_1 ... a_(n-1) = 0, a_n = 1) and each
    application of [nextTrialPoly] adds one, with carry, to the number
    that a_0 ... a_(n-1) spell in base p, leaving a_n at 1; so the trial
    polynomials up to the wrap are monic of degree n and pairwise
    different, and the step after x^n + (p-1) x^(n-1) + ... + (p-1)
    yields x^(n+1), which is not of degree n. *)
Theorem odometer_visits_at_most_once (n : nat) (p : Z) :
  (2 <= n)%nat -> 1 < p ->
  initialTrialPoly n p
  = mkPolynomial ((p - 1) :: repeat 0 (n - 1) ++ [1]) p /\
  (forall k : nat,
     Z.of_nat k <= p ^ Z.of_nat n - p ->
     monic_of_degree n p (trial_poly n p k) /\
     value p (firstn n (coeffs (trial_poly n p k))) = p - 1 + Z.of_nat k) /\
  (forall i j : nat,
     Z.of_nat i <= p ^ Z.of_nat n - p ->
     Z.of_nat j <= p ^ Z.of_nat n - p ->
     trial_poly n p i = trial_poly n p j -> i = j) /\
  (forall k : nat,
     Z.of_nat k = p ^ Z.of_nat n - p + 1 ->
     trial_poly n p k = mkPolynomial (repeat 0 (S n) ++ [1]) p /\
     ~ monic_of_degree n p (trial_poly n p k)).
Proof.
  intros Hn Hp.
  assert (Hshape := trial_poly_digits n p ltac:(lia) Hp).
  split.
  { destruct n as [| n']; [lia |]. cbn [initialTrialPoly].
    replace (S n' - 1)%nat with n' by lia. reflexivity. }
  split.
  { intros k Hk. destruct (Hshape k Hk) as (low & E & Hlen & Hr & Hv).
    rewrite E. cbn [coeffs]. split.
    - split; [reflexivity |]. exists low. auto.
    - rewrite <- Hlen at 1. rewrite firstn_app, Nat.sub_diag, firstn_all.
      cbn [firstn]. rewrite app_nil_r. exact Hv. }
  split.
  { intros i j Hi Hj Heq.
    destruct (Hshape i Hi) as (li & Ei & _ & _ & Hvi).
    destruct (Hshape j Hj) as (lj & Ej & _ & _ & Hvj).
    rewrite Ei, Ej in Heq. injection Heq as Heq.
    apply app_inj_tail in Heq. destruct Heq as [Heq _]. subst lj. lia. }
  intros k Hk. destruct k as [| k].
  { exfalso.
    assert (p * p <= p ^ Z.of_nat n).
    { replace (Z.of_nat n) with (2 + Z.of_nat (n - 2)) by lia.
      rewrite Z.pow_add_r by lia.
      assert (0 < p ^ Z.of_nat (n - 2)) by (apply Z.pow_pos_nonneg; lia).
      nia. }
    nia. }
  destruct (Hshape k ltac:(lia)) as (low & E & Hlen & Hr & Hv).
  assert (Hnext : trial_poly n p (S k) = mkPolynomial (repeat 0 (S n) ++ [1]) p).
  { cbn [trial_poly]. rewrite E.
    unfold nextTrialPoly, deg. cbn [coeffs modulus]. rewrite firstn_low.
    pose proof (increment_value p Hp low Hr) as (Hlen' & Hr' & Hv').
    destruct (increment p low) as [low' carry]. cbn [fst snd] in *.
    pose proof (value_bounds p low' ltac:(lia) Hr') as Hb.
    rewrite Hlen', Hlen in Hb.
    destruct carry.
    - rewrite length_app, Hlen. cbn [length]. rewrite Nat.add_1_r.
      reflexivity.
    - lia. }
  split; [exact Hnext |].
  rewrite Hnext. intros (_ & low2 & E2 & Hlen2 & _). cbn [coeffs] in E2.
  apply (f_equal (@length Z)) in E2.
  rewrite !length_app, repeat_length, Hlen2 in E2. cbn [length] in E2. lia.
Qed.

Lemma odometer_degree_4_modulo_2 :
  ((2 <= 4)%nat /\ 1 < 2) /\
  trial_poly 4 2 14 <> trial_poly 4 2 2.
Proof.
  split; [split; lia |].
  intros H.
  apply (proj1 (proj2 (proj2
           (odometer_visits_at_most_once 4 2 ltac:(lia) ltac:(lia)))))
    in H; [discriminate | cbn; lia | cbn; lia].
Defined.

(** *** What the enumeration covers *)

Lemma trial_poly_injective (n : nat) (p : Z) (i j : nat) :
  (1 <= n)%nat -> 1 < p ->
  Z.of_nat i <= p ^ Z.of_nat n - p ->
  Z.of_nat j <= p ^ Z.of_nat n - p ->
  trial_poly n p i = trial_poly n p j -> i = j.
Proof.
  intros Hn Hp Hi Hj E.
  destruct (trial_poly_digits n p Hn Hp i Hi) as (li & Ei & _ & _ & Vi).
  destruct (trial_poly_digits n p Hn Hp j Hj) as (lj & Ej & _ & _ & Vj).
  rewrite Ei, Ej in E. injection E as E. apply app_inj_tail in E.
  destruct E as [-> _]. lia.
Qed.

Lemma value_zero p digits :
  0 < p -> in_range p digits -> value p digits = 0 ->
  digits = repeat 0 (length digits).
Proof.
  intros Hp. induction 1 as [| a rest Ha Hrest IH]; cbn [value length repeat];
    [reflexivity |].
  intros Hv. pose proof (value_bounds p rest Hp Hrest) as Hb.
  assert (a = 0) by nia. assert (value p rest = 0) by nia.
  subst a. rewrite <- IH by assumption. reflexivity.
Qed.

(** Every monic polynomial of degree n with coefficients in [0, p) is
    one of the trial polynomials before the wrap, except the polynomials
    x^n + c with c < p - 1, which come before x^n - 1. *)
Lemma trial_poly_covers (n : nat) (p : Z) (low : list Z) :
  (1 <= n)%nat -> 1 < p ->
  length low = n -> in_range p low ->
  (exists k : nat,
     Z.of_nat k <= p ^ Z.of_nat n - p /\
     trial_poly n p k = mkPolynomial (low ++ [1]) p) \/
  (exists c : Z, 0 <= c < p - 1 /\ low = c :: repeat 0 (n - 1)).
Proof.
  intros Hn Hp Hlen Hr.
  pose proof (value_bounds p low ltac:(lia) Hr) as Hb. rewrite Hlen in Hb.
  destruct (Z_le_gt_dec (p - 1) (value p low)) as [Hge | Hlt].
  - left. exists (Z.to_nat (value p low - (p - 1))).
    assert (Hk : Z.of_nat (Z.to_nat (value p low - (p - 1)))
                 <= p ^ Z.of_nat n - p) by lia.
    split; [exact Hk |].
    destruct (trial_poly_digits n p Hn Hp _ Hk) as (l & El & Hl & Hrl & Vl).
    rewrite El. f_equal. f_equal.
    apply (value_injective p ltac:(lia)); [lia | exact Hrl | exact Hr | lia].
  - right. destruct low as [| a rest]; [cbn [length] in Hlen; lia |].
    inversion Hr as [| ? ? Ha Hrest]; subst. cbn [value] in Hlt.
    pose proof (value_bounds p rest ltac:(lia) Hrest) as Hbr.
    assert (Hv0 : value p rest = 0) by nia.
    exists a. split; [lia |].
    rewrite (value_zero p rest ltac:(lia) Hrest Hv0). cbn [length].
    rewrite repeat_length. replace (S (length rest) - 1)%nat with (length rest) by lia.
    reflexivity.
Qed.

End Polynomial.

(** ** The search for degree 4 modulo 2

    The driver run against the enumeration and the brute-force order
    computation above. *)

Module Scenario.

Import Primpoly.

Definition parser (list_all : bool) (n : Z) : PolyParser Polynomial.Polynomial :=
  mkPolyParser _ false false list_all false false
               (Polynomial.initialTrialPoly (Z.to_nat n) 2) n 2.

Definition initialTrialPoly (n p : Z) : result Polynomial.Polynomial :=
  Ok (Polynomial.initialTrialPoly (Z.to_nat n) p).

Definition PolyOrder_new (g : Polynomial.Polynomial) : result unit := Ok tt.

Definition isPrimitive (g : Polynomial.Polynomial) : result bool :=
  Ok (Polynomial.maximal_order g).

(** A tester that accepts nothing, to reach the end of the enumeration. *)
Definition rejects_all (g : Polynomial.Polynomial) : result bool := Ok false.

Definition x4_x_1 : Polynomial.Polynomial :=
  Polynomial.mkPolynomial [1; 1; 0; 0; 1] 2.
Definition x4_x3_1 : Polynomial.Polynomial :=
  Polynomial.mkPolynomial [1; 0; 0; 1; 1] 2.


(** Find-one for p = 2, n = 2 against a tester that accepts nothing: all
    four trial polynomials are tried and [main] returns [InternalError]. *)
Lemma find_one_rejecting_tester :
  list_all_primitive_polynomials_ _ (parser false 2) = false /\
  main_try _ (Ok (parser false 2)) (Ok true) initialTrialPoly
       Polynomial.nextTrialPoly PolyOrder_new rejects_all isPrimitive 2 4 4
  = Some (Throw PolynomialError) /\
  main _ (Ok (parser false 2)) (Ok true) initialTrialPoly
       Polynomial.nextTrialPoly PolyOrder_new rejects_all isPrimitive 2 4 4
  = Some InternalError.
Proof.
  split; [reflexivity |].
  destruct (find_one_exhausted_is_internal_error
              Polynomial.Polynomial (Ok (parser false 2)) (Ok true)
              initialTrialPoly Polynomial.nextTrialPoly PolyOrder_new
              rejects_all isPrimitive 2 4
              (parser false 2) (Polynomial.initialTrialPoly 2 2) 4%nat)
    as (_ & Htry & Hmain & _).
  - reflexivity.
  - reflexivity.
  - reflexivity.
  - reflexivity.
  - reflexivity.
  - reflexivity.
  - reflexivity.
  - intros i Hi. reflexivity.
  - cbn. lia.
  - split; [exact Htry | exact Hmain].
Defined.

End Scenario.


(** ** Further runs of the driver for p = 2 *)

Module Runs.

Import Primpoly.

(** A parser state with the slow confirmation switched on. *)
Definition confirming_parser (list_all : bool) (n : Z)
  : PolyParser Polynomial.Polynomial :=
  mkPolyParser _ false false list_all false true
               (Polynomial.initialTrialPoly (Z.to_nat n) 2) n 2.

(** A parser state that asks to test x^4 + x + 1. *)
Definition testing_parser : PolyParser Polynomial.Polynomial :=
  mkPolyParser _ false true false false false Scenario.x4_x_1 4 2.

(** The find-all search of degree 4 stays within its bounds. *)
Lemma search_bounds_degree_4_modulo_2 :
  trials _ Polynomial.nextTrialPoly Scenario.isPrimitive Scenario.isPrimitive
         2 16 16 (Scenario.parser true 4)
         (first_trial _ (Polynomial.initialTrialPoly 4 2))
  = Some (Ok (mkTrial _ Scenario.x4_x3_1 9 2 true
                      [Scenario.x4_x_1; Scenario.x4_x3_1])) /\
  1 <= 9 <= Z.max 1 16.
Proof.
  split; [reflexivity |].
  exact (proj1
    (search_bounds _ Polynomial.nextTrialPoly Scenario.isPrimitive
       Scenario.isPrimitive 2 16 (Scenario.parser true 4)
       (Polynomial.initialTrialPoly 4 2) 16
       (mkTrial _ Scenario.x4_x3_1 9 2 true
                [Scenario.x4_x_1; Scenario.x4_x3_1])
       eq_refl)).
Defined.

(** Find-one for degree 4: the third trial polynomial, x^4 + x + 1, is
    the first one accepted and the only one written out. *)
Lemma find_one_degree_4_modulo_2 :
  list_all_primitive_polynomials_ _ (Scenario.parser false 4) = false /\
  exists t : trial Polynomial.Polynomial,
    trials _ Polynomial.nextTrialPoly Scenario.isPrimitive Scenario.isPrimitive
           2 16 16 (Scenario.parser false 4)
           (first_trial _ (Polynomial.initialTrialPoly 4 2))
    = Some (Ok t) /\
    reported _ t = [Scenario.x4_x_1] /\
    num_poly _ t = 3 /\
    main _ (Ok (Scenario.parser false 4)) (Ok true) Scenario.initialTrialPoly
         Polynomial.nextTrialPoly Scenario.PolyOrder_new Scenario.isPrimitive
         Scenario.isPrimitive 2 16 16
    = Some Success.
Proof.
  split; [reflexivity |].
  destruct (find_one_stops_at_first_accepted
              Polynomial.Polynomial (Ok (Scenario.parser false 4)) (Ok true)
              Scenario.initialTrialPoly Polynomial.nextTrialPoly
              Scenario.PolyOrder_new Scenario.isPrimitive Scenario.isPrimitive
              2 16 (Scenario.parser false 4) (Polynomial.initialTrialPoly 4 2)
              2%nat 16%nat)
    as (t & Hrun & Hrep & Hnum & _ & _ & Hmain).
  - reflexivity.
  - intros i Hi. do 2 (destruct i as [| i]; [reflexivity |]). lia.
  - reflexivity.
  - reflexivity.
  - cbn. lia.
  - lia.
  - exists t. split; [exact Hrun |]. split; [exact Hrep |].
    split; [exact Hnum |]. apply Hmain; reflexivity.
Defined.

(** Find-all for degree 2 against a tester that accepts nothing: all four
    trial polynomials are tried and [main] returns [Success]. *)
Lemma find_all_rejecting_tester :
  list_all_primitive_polynomials_ _ (Scenario.parser true 2) = true /\
  exists t : trial Polynomial.Polynomial,
    trials _ Polynomial.nextTrialPoly Scenario.rejects_all Scenario.isPrimitive
           1 4 4 (Scenario.parser true 2)
           (first_trial _ (Polynomial.initialTrialPoly 2 2))
    = Some (Ok t) /\
    num_poly _ t = 4 /\
    reported _ t = [] /\
    main _ (Ok (Scenario.parser true 2)) (Ok true) Scenario.initialTrialPoly
         Polynomial.nextTrialPoly Scenario.PolyOrder_new Scenario.rejects_all
         Scenario.isPrimitive 1 4 4
    = Some Success.
Proof.
  split; [reflexivity |].
  destruct (find_all_shortfall_is_success
              Polynomial.Polynomial (Ok (Scenario.parser true 2)) (Ok true)
              Scenario.initialTrialPoly Polynomial.nextTrialPoly
              Scenario.PolyOrder_new Scenario.rejects_all Scenario.isPrimitive
              1 4 (Scenario.parser true 2) (Polynomial.initialTrialPoly 2 2)
              (fun _ => false) 4%nat)
    as (t & Hrun & Hnum & Hrep & Hmain).
  - reflexivity.
  - intros i Hi. reflexivity.
  - intros i Hi Hv. discriminate.
  - reflexivity.
  - cbn. lia.
  - exists t. split; [exact Hrun |]. split; [exact Hnum |].
    split; [exact Hrep |]. apply Hmain; reflexivity.
Defined.

(** Find-all for degree 4 with a slow confirmation that contradicts the
    tester: the search ends at x^4 + x + 1 with a [PolynomialError]. *)
Lemma contradicted_at_x4_x_1 :
  slow_confirm_ _ (confirming_parser true 4) = true /\
  main _ (Ok (confirming_parser true 4)) (Ok true) Scenario.initialTrialPoly
       Polynomial.nextTrialPoly Scenario.PolyOrder_new Scenario.isPrimitive
       Scenario.rejects_all 2 16 16
  = Some InternalError.
Proof.
  split; [reflexivity |].
  destruct (slow_confirm_disagreement_is_internal_error
              Polynomial.Polynomial (Ok (confirming_parser true 4)) (Ok true)
              Scenario.initialTrialPoly Polynomial.nextTrialPoly
              Scenario.PolyOrder_new Scenario.isPrimitive Scenario.rejects_all
              2 16 (confirming_parser true 4) (Polynomial.initialTrialPoly 4 2)
              2%nat 16%nat)
    as (_ & Hmain).
  - reflexivity.
  - intros i Hi. do 2 (destruct i as [| i]; [reflexivity |]). lia.
  - reflexivity.
  - reflexivity.
  - cbn. lia.
  - lia.
  - apply Hmain; reflexivity.
Defined.

(** Testing x^4 + x + 1 against a tester that rejects it is a success all
    the same. *)
Lemma test_given_rejected_polynomial :
  test_polynomial_for_primitivity_ _ testing_parser = true /\
  main _ (Ok testing_parser) (Ok true) Scenario.initialTrialPoly
       Polynomial.nextTrialPoly Scenario.PolyOrder_new Scenario.rejects_all
       Scenario.isPrimitive 2 16 0
  = Some Success.
Proof.
  split; [reflexivity |].
  apply (test_given_is_success_for_any_verdict
           Polynomial.Polynomial (Ok testing_parser) (Ok true)
           Scenario.initialTrialPoly Polynomial.nextTrialPoly
           Scenario.PolyOrder_new Scenario.rejects_all Scenario.isPrimitive
           2 16 testing_parser 0%nat false true); reflexivity.
Defined.

(** A failed self-check ahead of the find-one search of degree 4. *)
Lemma self_check_fails_before_search :
  print_help_ _ (Scenario.parser false 4) = false /\
  main _ (Ok (Scenario.parser false 4)) (Ok false) Scenario.initialTrialPoly
       Polynomial.nextTrialPoly Scenario.PolyOrder_new Scenario.isPrimitive
       Scenario.isPrimitive 2 16 16
  = Some InternalError.
Proof.
  split; [reflexivity |].
  apply (failed_self_check_is_internal_error
           Polynomial.Polynomial (Ok (Scenario.parser false 4)) (Ok false)
           Scenario.initialTrialPoly Polynomial.nextTrialPoly
           Scenario.PolyOrder_new Scenario.isPrimitive Scenario.isPrimitive
           2 16 (Scenario.parser false 4) 16%nat);
    [reflexivity | reflexivity | left; reflexivity].
Defined.

(** A tester that cannot factor: the quick test throws a [FactorError]. *)
Definition failing_tester (g : Polynomial.Polynomial) : result bool :=
  Throw FactorError.

(** A [FactorError] thrown by the tester while the polynomial given by
    the user is tested leaves the [try] block, and [main] returns
    [InternalError]. *)
Lemma factor_error_in_test_given :
  main_try _ (Ok testing_parser) (Ok true) Scenario.initialTrialPoly
       Polynomial.nextTrialPoly Scenario.PolyOrder_new failing_tester
       Scenario.isPrimitive 2 16 0
  = Some (Throw FactorError) /\
  main _ (Ok testing_parser) (Ok true) Scenario.initialTrialPoly
       Polynomial.nextTrialPoly Scenario.PolyOrder_new failing_tester
       Scenario.isPrimitive 2 16 0
  = Some InternalError.
Proof.
  destruct (main_exit_status
              Polynomial.Polynomial (Ok testing_parser) (Ok true)
              Scenario.initialTrialPoly Polynomial.nextTrialPoly
              Scenario.PolyOrder_new failing_tester Scenario.isPrimitive
              2 16)
    as (_ & _ & _ & _ & _ & Hiff & Hstatus & _).
  assert (Hthrown : thrown Polynomial.Polynomial (Ok testing_parser) (Ok true)
                      Scenario.initialTrialPoly Polynomial.nextTrialPoly
                      Scenario.PolyOrder_new failing_tester
                      Scenario.isPrimitive 2 16 0 FactorError).
  { apply (thrown_by_test_of_given _ _ _ _ _ _ _ _ _ _ _ testing_parser);
      try reflexivity.
    repeat split. }
  split.
  - apply Hiff. exact Hthrown.
  - exact (Hstatus 0%nat FactorError Hthrown).
Defined.

End Runs.
(** ** Prime factorization (ppFactor.hpp) *)

Module Factorization.

Import Primpoly.

(** [PrimeFactor]: a prime with its multiplicity. *)
Record PrimeFactor : Type := mkPrimeFactor { prime_ : Z; count_ : Z }.

(** [CompareFactor::operator()]: order by the size of the prime. *)
Definition CompareFactor (s1 s2 : PrimeFactor) : bool :=
  prime_ s1 <? prime_ s2.

(** [Unit::operator()]: a factor p^0 or 1^e. *)
Definition Unit (s : PrimeFactor) : bool :=
  (count_ s =? 0) || (prime_ s =? 1).

(** The number that a list of prime powers multiplies to. *)
Definition product (fs : list PrimeFactor) : Z :=
  fold_right (fun s acc => prime_ s ^ count_ s * acc) 1 fs.

(** Primes strictly increasing, in terms of the comparison above. *)
Definition increasing (fs : list PrimeFactor) : Prop :=
  StronglySorted (fun s1 s2 => CompareFactor s1 s2 = true) fs.




Section Cascade.

(** The probabilistic primality test (Miller-Rabin with random bases),
    the factor table, and the cycle finding of Pollard rho, which starts
    from the random source: their code (ppFactor.cpp) and the table are
    not at hand.  [table p m] is the record for p^m - 1, the prime powers
    it lists and the residual it leaves unfactored (1 for a full
    factorization); [cycle n c] is the difference of the two values of
    the sequence x -> x^2 + c mod n at which the cycle finding stops;
    [retries] is the number of further parameters c that are tried. *)
Variable isAlmostSurelyPrime : Z -> bool.
Variable table : Z -> Z -> option (list PrimeFactor * Z).
Variable cycle : Z -> Z -> Z.
Variable retries : nat.










End Cascade.












(** *** Entering prime powers into the vector *)








(** *** The stages *)


















(** *** The comparison and the unit test of the header *)

(** X19: [CompareFactor] is a strict weak ordering, as sorting with it
    requires: it is irreflexive and transitive, and two factors are
    unordered by it exactly when they have the same prime, whatever their
    multiplicities. *)
Theorem CompareFactor_strict_weak_order :
  (forall s, CompareFactor s s = false) /\
  (forall s1 s2 s3,
     CompareFactor s1 s2 = true -> CompareFactor s2 s3 = true ->
     CompareFactor s1 s3 = true) /\
  (forall s1 s2,
     CompareFactor s1 s2 = false /\ CompareFactor s2 s1 = false
     <-> prime_ s1 = prime_ s2).
Proof.
  unfold CompareFactor. split; [| split].
  - intros s. apply Z.ltb_irrefl.
  - intros s1 s2 s3 H12 H23. apply Z.ltb_lt in H12, H23. apply Z.ltb_lt. lia.
  - intros s1 s2. rewrite !Z.ltb_ge. lia.
Qed.

Lemma pow_ge_base (b e : Z) : 1 <= b -> 1 <= e -> b <= b ^ e.
Proof.
  intros Hb He. replace e with (Z.succ (e - 1)) by lia.
  rewrite Z.pow_succ_r by lia.
  assert (0 < b ^ (e - 1)) by (apply Z.pow_pos_nonneg; lia). nia.
Qed.

(** X20: for factors with a prime of at least 1 and a multiplicity of at
    least 0, dropping the factors that [Unit] recognises leaves the
    product unchanged, and every factor that is kept is worth at least
    2. *)
Theorem removing_units_keeps_product (fs : list PrimeFactor) :
  Forall (fun s => 1 <= prime_ s /\ 0 <= count_ s) fs ->
  product (filter (fun s => negb (Unit s)) fs) = product fs /\
  Forall (fun s => 2 <= prime_ s ^ count_ s)
         (filter (fun s => negb (Unit s)) fs).
Proof.
  induction 1 as [| s fs [Hp Hc] _ [IHp IHf]];
    [split; [reflexivity | constructor] |].
  cbn [filter]. destruct (Unit s) eqn:EU; cbn [negb].
  - split; [| exact IHf].
    change (product (s :: fs)) with (prime_ s ^ count_ s * product fs).
    rewrite IHp. unfold Unit in EU. apply orb_true_iff in EU.
    destruct EU as [E0 | E1].
    + apply Z.eqb_eq in E0. rewrite E0, Z.pow_0_r. lia.
    + apply Z.eqb_eq in E1. rewrite E1, Z.pow_1_l by lia. lia.
  - unfold Unit in EU. apply orb_false_iff in EU. destruct EU as [E0 E1].
    apply Z.eqb_neq in E0, E1. split.
    + change (product (s :: filter (fun s0 => negb (Unit s0)) fs))
        with (prime_ s ^ count_ s
              * product (filter (fun s0 => negb (Unit s0)) fs)).
      rewrite IHp. reflexivity.
    + constructor; [| exact IHf].
      pose proof (pow_ge_base (prime_ s) (count_ s) ltac:(lia) ltac:(lia)).
      lia.
Qed.

Lemma removing_units_from_12 :
  product [mkPrimeFactor 2 2; mkPrimeFactor 3 1]
  = product [mkPrimeFactor 1 3; mkPrimeFactor 2 2; mkPrimeFactor 5 0;
             mkPrimeFactor 3 1].
Proof.
  apply (proj1 (removing_units_keeps_product
                  [mkPrimeFactor 1 3; mkPrimeFactor 2 2; mkPrimeFactor 5 0;
                   mkPrimeFactor 3 1]
                  ltac:(repeat constructor; cbn; lia))).
Defined.

(** *** How many distinct primes a number can have *)

(** [m (m + 1) ... (m + k - 1)]. *)
Fixpoint rising (m : Z) (k : nat) : Z :=
  match k with
  | O => 1
  | S k' => m * rising (m + 1) k'
  end.

Lemma rising_pos (k : nat) : forall m, 1 <= m -> 1 <= rising m k.
Proof.
  induction k as [| k IH]; intros m Hm; cbn [rising]; [lia |].
  pose proof (IH (m + 1) ltac:(lia)). nia.
Qed.

Lemma rising_succ_le (k : nat) :
  forall m, 1 <= m -> rising m k <= rising m (S k).
Proof.
  induction k as [| k IH]; intros m Hm.
  - cbn [rising]. lia.
  - change (rising m (S (S k))) with (m * rising (m + 1) (S k)).
    change (rising m (S k)) with (m * rising (m + 1) k).
    pose proof (IH (m + 1) ltac:(lia)). nia.
Qed.

Lemma rising_mono (m : Z) (j k : nat) :
  1 <= m -> (j <= k)%nat -> rising m j <= rising m k.
Proof.
  intros Hm. induction 1 as [| k _ IH]; [lia |].
  pose proof (rising_succ_le k m Hm). lia.
Qed.

Lemma product_ge_rising (fs : list PrimeFactor) :
  forall m,
    1 <= m ->
    increasing fs ->
    Forall (fun s => m <= prime_ s /\ 1 <= count_ s) fs ->
    rising m (length fs) <= product fs.
Proof.
  induction fs as [| s fs IH]; intros m Hm Hinc Hall.
  - cbn. unfold product. cbn. lia.
  - inversion Hinc as [| s0 fs0 Hinc' Hlt]; subst.
    inversion Hall as [| s0 fs0 [Hp Hc] Hall']; subst.
    cbn [length rising].
    change (product (s :: fs)) with (prime_ s ^ count_ s * product fs).
    assert (Hrest : rising (m + 1) (length fs) <= product fs).
    { apply IH; [lia | exact Hinc' |].
      rewrite Forall_forall in *. intros s' Hin.
      specialize (Hlt s' Hin). specialize (Hall' s' Hin).
      unfold CompareFactor in Hlt. apply Z.ltb_lt in Hlt. lia. }
    pose proof (pow_ge_base (prime_ s) (count_ s) ltac:(lia) Hc).
    pose proof (rising_pos (length fs) (m + 1) ltac:(lia)).
    nia.
Qed.

End Factorization.

(** ** The limits of the C version (PrimpolyC/Primpoly.h) *)

Module PrimpolyC.

Import Factorization.

(** [sizeof( bigint )] for the 64-bit [unsigned long long]. *)
Definition sizeof_bigint : Z := 8.

(** [#define NUMBITS 8 * sizeof( bigint )] *)
Definition NUMBITS : Z := 8 * sizeof_bigint.

(** [#define MAXPTON (bigint) pow( (double) 2,
    (double) (8 * sizeof( bigint ) - 1) ) - 1]: the power of two is exact
    as a double, the cast applies to it before 1 is subtracted, and the
    subtraction is that of [bigint]. *)
Definition MAXPTON : Z := wrap64 (wrap64 (2 ^ (8 * sizeof_bigint - 1)) - 1).

(** [#define MAXDEGPOLY 62] and [#define MAXNUMPRIMEFACTORS 31] *)
Definition MAXDEGPOLY : Z := 62.
Definition MAXNUMPRIMEFACTORS : Z := 31.

Lemma MAXPTON_value : MAXPTON = 2 ^ 63 - 1.
Proof. reflexivity. Qed.

(** X21: [MAXDEGPOLY] bounds the degree for every modulus: when p^n does
    not exceed [MAXPTON] for a p of at least 2, then n is at most
    [MAXDEGPOLY]; the bound is reached by p = 2, since 2^62 is within
    [MAXPTON] and 2^63 is not. *)
Theorem degree_within_MAXDEGPOLY (p n : Z) :
  2 <= p -> 0 <= n -> p ^ n <= MAXPTON ->
  n <= MAXDEGPOLY /\
  2 ^ MAXDEGPOLY <= MAXPTON < 2 ^ (MAXDEGPOLY + 1).
Proof.
  intros Hp Hn Hpow. rewrite MAXPTON_value in *. unfold MAXDEGPOLY.
  split; [| split; [apply Z.leb_le | apply Z.ltb_lt]; reflexivity].
  destruct (Z.le_gt_cases n 62) as [Hle | Hgt]; [exact Hle | exfalso].
  assert (H1 : 2 ^ 63 <= 2 ^ n) by (apply Z.pow_le_mono_r; lia).
  assert (H2 : 2 ^ n <= p ^ n) by (apply Z.pow_le_mono_l; lia).
  lia.
Qed.

Lemma degree_within_MAXDEGPOLY_modulo_3 :
  3 ^ 39 <= MAXPTON /\ 39 <= MAXDEGPOLY.
Proof.
  assert (H : 3 ^ 39 <= MAXPTON) by (apply Z.leb_le; reflexivity).
  split; [exact H |].
  exact (proj1 (degree_within_MAXDEGPOLY 3 39 ltac:(lia) ltac:(lia) H)).
Defined.

(** X22: an array of [MAXNUMPRIMEFACTORS] entries holds the factorization
    of every number up to [MAXPTON]: a list of prime powers with strictly
    increasing primes of at least 2, multiplicities of at least 1 and a
    product within [MAXPTON] has fewer than [MAXNUMPRIMEFACTORS]
    entries. *)
Theorem factors_within_MAXNUMPRIMEFACTORS (fs : list PrimeFactor) :
  increasing fs ->
  Forall (fun s => 2 <= prime_ s /\ 1 <= count_ s) fs ->
  product fs <= MAXPTON ->
  Z.of_nat (length fs) < MAXNUMPRIMEFACTORS.
Proof.
  intros Hinc Hall Hprod. unfold MAXNUMPRIMEFACTORS.
  destruct (Nat.le_gt_cases 20 (length fs)) as [Hlong | Hshort]; [| lia].
  exfalso.
  pose proof (product_ge_rising fs 2 ltac:(lia) Hinc Hall) as Hr.
  pose proof (rising_mono 2 20 (length fs) ltac:(lia) Hlong) as Hm.
  assert (Hbig : MAXPTON < rising 2 20) by (apply Z.ltb_lt; reflexivity).
  lia.
Qed.

Lemma factors_of_360_within_MAXNUMPRIMEFACTORS :
  product [mkPrimeFactor 2 3; mkPrimeFactor 3 2; mkPrimeFactor 5 1] = 360 /\
  3 < MAXNUMPRIMEFACTORS.
Proof.
  split; [reflexivity |].
  apply (factors_within_MAXNUMPRIMEFACTORS
           [mkPrimeFactor 2 3; mkPrimeFactor 3 2; mkPrimeFactor 5 1]).
  - repeat constructor.
  - repeat constructor; cbn; lia.
  - apply Z.leb_le. reflexivity.
Defined.

End PrimpolyC.
